(** * Script harness of the request runner: continuation handoff,
      capture buffers, callback slot and async bridge.

    The program under study is the 54-line JavaScript prelude that the
    host wraps around a user script (the [%s] hole in the template).
    It is embedded shallowly: the process-wide bindings become the
    fields of a [State] record threaded through every operation, calls
    on host capabilities are recorded in a trace, a script body is a
    finite tree of the operations it performs on the harness, and an
    [async] function returns the final state of its promise. *)

From Stdlib Require Import ZArith List String Ascii Bool Lia DecimalString.
From Stdlib Require Import DecimalPos DecimalZ Permutation.
Import ListNotations.

Set Warnings "-register-all".

Open Scope string_scope.

(* ================================================================== *)
(** ** JavaScript values *)
(* ================================================================== *)

Module Js.

(** The data values that can flow through the harness.  [JNum] stands
    for an integer-valued number in the range where [Number::toString]
    prints plain decimal digits; [JNaN] is kept apart because it is the
    one falsy number besides zero.  Function values are not data: the
    only place the harness stores one is the callback slot, which has
    its own type below. *)
Inductive JsVal : Type :=
| JUndefined
| JNull
| JBool (b : bool)
| JNum (n : Z)
| JNaN
| JStr (s : string)
| JArr (elems : list JsVal)
| JObj (fields : list (string * JsVal)).

(** ToBoolean, as used by [if (error)]. *)
Definition truthy (v : JsVal) : bool :=
  match v with
  | JUndefined | JNull | JNaN => false
  | JBool b => b
  | JNum n => negb (n =? 0)%Z
  | JStr s => negb (s =? "")
  | JArr _ | JObj _ => true
  end.

Definition is_nullish (v : JsVal) : bool :=
  match v with
  | JUndefined | JNull => true
  | _ => false
  end.

(** Decimal rendering of an integer-valued number. *)
Definition Z_to_string (n : Z) : string :=
  NilZero.string_of_int (Z.to_int n).

(** ToString.  An array prints as its elements joined by a comma, with
    [null] and [undefined] elements printing as nothing; a plain
    object prints through [Object.prototype.toString]. *)
Fixpoint ToString (v : JsVal) : string :=
  match v with
  | JUndefined => "undefined"
  | JNull => "null"
  | JBool true => "true"
  | JBool false => "false"
  | JNum n => Z_to_string n
  | JNaN => "NaN"
  | JStr s => s
  | JArr l =>
      String.concat ","
        (map (fun x => match x with
                       | JUndefined | JNull => ""
                       | _ => ToString x
                       end) l)
  | JObj _ => "[object Object]"
  end.

(** One element of [Array.prototype.join]. *)
Definition join_elem (v : JsVal) : string :=
  if is_nullish v then "" else ToString v.

(** [Array.prototype.join(sep)]. *)
Definition Array_join (sep : string) (l : list JsVal) : string :=
  String.concat sep (map join_elem l).

(** Reading the property [message] of a value ([e.message]).  Reading
    any property of [null] or [undefined] raises; primitives and
    arrays have no such property on their prototypes; the field list
    of an object stands for every property reachable from it. *)
Fixpoint lookup (key : string) (fields : list (string * JsVal)) : option JsVal :=
  match fields with
  | [] => None
  | (k, v) :: rest => if k =? key then Some v else lookup key rest
  end.

Definition has_message (v : JsVal) : bool :=
  match v with
  | JObj fields => match lookup "message" fields with Some _ => true | None => false end
  | _ => false
  end.

(** Errors raised by the engine itself.  The wording of the message is
    the engine's; only the shape (an object carrying [name] and
    [message]) matters below. *)
Definition EngineError (name msg : string) : JsVal :=
  JObj [("name", JStr name); ("message", JStr msg)].

Definition TypeError (msg : string) : JsVal := EngineError "TypeError" msg.

(** [inl m]: the read yields [m]; [inr err]: the read raises [err]. *)
Definition get_message (v : JsVal) : JsVal + JsVal :=
  match v with
  | JUndefined | JNull =>
      inr (TypeError ("Cannot read property 'message' of " ++ ToString v))
  | JObj fields =>
      match lookup "message" fields with
      | Some m => inl m
      | None => inl JUndefined
      end
  | _ => inl JUndefined
  end.

(** *** JSON.stringify *)

Definition dquote : ascii := ascii_of_nat 34.
Definition backslash : ascii := ascii_of_nat 92.

Definition hex_digit (n : nat) : ascii :=
  if Nat.ltb n 10 then ascii_of_nat (48 + n) else ascii_of_nat (87 + n).

(** QuoteJSONString on one code unit. *)
Definition quote_char (c : ascii) : string :=
  let n := nat_of_ascii c in
  if Nat.eqb n 34 then String backslash (String dquote "")
  else if Nat.eqb n 92 then String backslash (String backslash "")
  else if Nat.eqb n 8 then String backslash "b"
  else if Nat.eqb n 9 then String backslash "t"
  else if Nat.eqb n 10 then String backslash "n"
  else if Nat.eqb n 12 then String backslash "f"
  else if Nat.eqb n 13 then String backslash "r"
  else if Nat.ltb n 32 then
    String backslash
      (String "u" (String "0" (String "0"
        (String (hex_digit (n / 16)) (String (hex_digit (n mod 16)) "")))))
  else String c "".

Fixpoint quote_body (s : string) : string :=
  match s with
  | EmptyString => ""
  | String c rest => quote_char c ++ quote_body rest
  end.

Definition QuoteJSONString (s : string) : string :=
  String dquote (quote_body s ++ String dquote "").

(** SerializeJSONProperty: [None] is the [undefined] result, which
    drops the property from an object and prints as [null] inside an
    array. *)
Fixpoint JSON_stringify (v : JsVal) : option string :=
  match v with
  | JUndefined => None
  | JNull => Some "null"
  | JBool true => Some "true"
  | JBool false => Some "false"
  | JNum n => Some (Z_to_string n)
  | JNaN => Some "null"
  | JStr s => Some (QuoteJSONString s)
  | JArr l =>
      Some ("[" ++ String.concat ","
                     (map (fun x => match JSON_stringify x with
                                    | Some s => s
                                    | None => "null"
                                    end) l) ++ "]")
  | JObj fs =>
      Some ("{" ++ String.concat ","
                     (flat_map (fun kv : string * JsVal =>
                                  let (k, x) := kv in
                                  match JSON_stringify x with
                                  | Some s => [QuoteJSONString k ++ ":" ++ s]
                                  | None => []
                                  end) fs) ++ "}")
  end.

End Js.

Import Js.

(* ================================================================== *)
(** ** The harness: bindings, script bodies, operations *)
(* ================================================================== *)

Module Harness.

(** Identity of a function value (JavaScript functions are compared by
    reference, so each carries a name here). *)
Definition FnId := nat.

(** What an awaited or attempted operation hands back to the script. *)
Inductive Outcome : Type :=
| Returned (v : JsVal)
| Raised (e : JsVal).

(** A script body, a handler body or the run of the declared specs, as
    the tree of what it does to the harness.  Control flow inside the
    script (including its own [try]/[catch]) is folded into the
    continuations: a script that does not catch a failure [e] of an
    awaited operation continues with [SThrow e].  A script reaches the
    harness through [log], [registerCallback], [exec] and [console]
    only; the bindings whose names start with two underscores are the
    harness's own.

    - [SDone]: falls off the end;
    - [SReturn]: executes a [return] statement;
    - [SThrow e]: raises [e] and does not catch it;
    - [SLog now messages k]: calls [log(...messages)] while the clock
      reads [now];
    - [SRegisterCallback callback k]: calls [registerCallback(callback)];
    - [SAwaitExec requestId envName k]: [await exec(requestId, envName)];
    - [SConsole method args k]: calls [console.method(...args)]. *)
Inductive Script : Type :=
| SDone
| SReturn
| SThrow (e : JsVal)
| SLog (now : Z) (messages : list JsVal) (k : Script)
| SRegisterCallback (callback : Callback) (k : Script)
| SAwaitExec (requestId envName : JsVal) (k : Outcome -> Script)
| SConsole (method : string) (args : list JsVal) (k : Outcome -> Script)
with Callback : Type :=
| CbFun (id : FnId) (body : JsVal -> Script)
| CbVal (v : JsVal).

(** [{time, message}], the object pushed by [log]. *)
Record LogEntry : Type := mkLogEntry { time : Z; message : string }.

Definition LogEntry_to_js (e : LogEntry) : JsVal :=
  JObj [("time", JNum (time e)); ("message", JStr (message e))].

(** Calls that leave the script environment, plus the one call the
    harness makes into script-supplied code. *)
Inductive Event : Type :=
| EvResume
| EvExec (requestId envName : JsVal)
| EvInvoke (fn : FnId) (arg : JsVal).

(** The top-level bindings of the prelude (lines 1-4) and the record
    of calls made so far. *)
Record State : Type := mkState {
  __internalLogs : list LogEntry;
  __internalError : JsVal;
  console : JsVal;
  __callback : Callback;
  trace : list Event
}.

(** [function() {}] of line 4. *)
Definition noop_id : FnId := 0.
Definition noop : Callback := CbFun noop_id (fun _ => SDone).

(** The bindings once lines 1-4 have run. *)
Definition init : State :=
  {| __internalLogs := [];
     __internalError := JNull;
     console := JNull;
     __callback := noop;
     trace := [] |}.

Definition emit (ev : Event) (st : State) : State :=
  {| __internalLogs := __internalLogs st;
     __internalError := __internalError st;
     console := console st;
     __callback := __callback st;
     trace := trace st ++ [ev] |}.

(** [__continuation.resume()]. *)
Definition resume (st : State) : State := emit EvResume st.

(** Lines 6-8. *)
Definition registerCallback (callback : Callback) (st : State) : State :=
  {| __internalLogs := __internalLogs st;
     __internalError := __internalError st;
     console := console st;
     __callback := callback;
     trace := trace st |}.

(** Lines 19-21.  [JSON.stringify] yields a string or [undefined]. *)
Definition __getInternalLogs (st : State) : JsVal * State :=
  (match JSON_stringify (JArr (map LogEntry_to_js (__internalLogs st))) with
   | Some s => JStr s
   | None => JUndefined
   end, st).

(** Lines 23-29; [now] is what [Date.now()] returns.  [messages] is a
    rest parameter, hence always an array, and [?.] never
    short-circuits. *)
Definition log (now : Z) (messages : list JsVal) (st : State) : State :=
  {| __internalLogs :=
       __internalLogs st ++ [{| time := now; message := Array_join " " messages |}];
     __internalError := __internalError st;
     console := console st;
     __callback := __callback st;
     trace := trace st |}.

Definition set_internalError (v : JsVal) (st : State) : State :=
  {| __internalLogs := __internalLogs st;
     __internalError := v;
     console := console st;
     __callback := __callback st;
     trace := trace st |}.

(** A promise, seen at the point where nothing more will happen to it. *)
Inductive Promise : Type :=
| Pending
| Fulfilled (v : JsVal)
| Rejected (e : JsVal).

(** The two settling functions handed to a promise executor: only the
    first call on a promise has an effect. *)
Definition resolve (v : JsVal) (p : Promise) : Promise :=
  match p with Pending => Fulfilled v | _ => p end.

Definition reject (e : JsVal) (p : Promise) : Promise :=
  match p with Pending => Rejected e | _ => p end.

(** Lines 33-39, the completion callback registered on the handle. *)
Definition onComplete (result error : JsVal) (p : Promise) : Promise :=
  if truthy error then reject error p else resolve result p.

Definition await (p : Promise) : option Outcome :=
  match p with
  | Pending => None
  | Fulfilled v => Some (Returned v)
  | Rejected e => Some (Raised e)
  end.

(** [console.method(...args)]: the member read on the [console]
    binding.  No value of [JsVal] is callable, so a member call on a
    non-null binding would fail at the call instead. *)
Definition console_call (method : string) (args : list JsVal) (st : State)
  : Outcome * State :=
  (if is_nullish (console st)
   then Raised (TypeError ("Cannot read property '" ++ method ++ "' of "
                             ++ ToString (console st)))
   else Raised (TypeError ("console." ++ method ++ " is not a function")),
   st).

(** How a piece of script code ends. [CPending]: it is suspended on a
    promise that never settles. *)
Inductive Completion : Type :=
| CNormal
| CReturn
| CThrow (e : JsVal)
| CPending.

(** The completion of a function call as seen by its caller. *)
Definition of_call (c : Completion) : Completion :=
  match c with CReturn => CNormal | _ => c end.

(** The promise returned by an [async] function whose body completed
    with [c]. *)
Definition async_result (c : Completion) : Promise :=
  match c with
  | CNormal | CReturn => Fulfilled JUndefined
  | CThrow e => Rejected e
  | CPending => Pending
  end.

Section WithHost.

(** The engine's [JSON.parse]: the parsed value, or the error raised. *)
Variable JSON_parse : string -> JsVal + JsVal.

(** The host side of [__exec]: given the calls made so far and the
    arguments of [__exec.exec], the [(result, error)] pairs with which
    the host will fire the completion callback of the returned handle,
    in order.  The contract is one firing; the empty list is a handle
    that never completes. *)
Variable host_complete : list Event -> JsVal -> JsVal -> list (JsVal * JsVal).

(** Lines 31-41. *)
Definition exec (requestId envName : JsVal) (st : State) : Promise * State :=
  let st' := emit (EvExec requestId envName) st in
  (fold_left (fun p (c : JsVal * JsVal) => onComplete (fst c) (snd c) p)
             (host_complete (trace st) requestId envName) Pending,
   st').

Fixpoint exec_script (s : Script) (st : State) : Completion * State :=
  match s with
  | SDone => (CNormal, st)
  | SReturn => (CReturn, st)
  | SThrow e => (CThrow e, st)
  | SLog now messages k => exec_script k (log now messages st)
  | SRegisterCallback callback k => exec_script k (registerCallback callback st)
  | SAwaitExec requestId envName k =>
      let (p, st') := exec requestId envName st in
      match await p with
      | None => (CPending, st')
      | Some o => exec_script (k o) st'
      end
  | SConsole method args k =>
      let (o, st') := console_call method args st in
      exec_script (k o) st'
  end.

(** [await __callback(res)]. *)
Definition call_callback (res : JsVal) (st : State) : Completion * State :=
  match __callback st with
  | CbFun id body =>
      let (c, st') := exec_script (body res) (emit (EvInvoke id res) st) in
      (of_call c, st')
  | CbVal _ => (CThrow (TypeError "__callback is not a function"), st)
  end.

(** [try { ... } finally { __continuation.resume(); }]: the finaliser
    runs on every exit of the block, and is not reached while the
    block is suspended. *)
Definition finally_resume (r : Completion * State) : Completion * State :=
  match fst r with
  | CPending => r
  | c => (c, resume (snd r))
  end.

(** Lines 10-17. *)
Definition __doCallback (resString : string) (st : State) : Promise * State :=
  match JSON_parse resString with
  | inr err => (Rejected err, st)
  | inl res =>
      let (c, st') := finally_resume (call_callback res st) in
      (async_result c, st')
  end.

(** The [try] block of lines 44-48: the script body, then
    [await jasmine.getEnv().execute()], whose behaviour is [specs]. *)
Definition try_block (body specs : Script) (st : State) : Completion * State :=
  let (c, st') := exec_script body st in
  match c with
  | CNormal => let (c', st'') := exec_script specs st' in (of_call c', st'')
  | _ => (c, st')
  end.

(** The [catch] clause of lines 49-51. *)
Definition catch_block (e : JsVal) (st : State) : Completion * State :=
  match get_message e with
  | inl m => (CNormal, set_internalError m st)
  | inr err => (CThrow err, st)
  end.

Definition try_catch (body specs : Script) (st : State) : Completion * State :=
  let (c, st') := try_block body specs st in
  match c with
  | CThrow e => catch_block e st'
  | _ => (c, st')
  end.

(** Lines 43-54, the run driver. *)
Definition run_driver (body specs : Script) (st : State) : Promise * State :=
  let (c, st') := finally_resume (try_catch body specs st) in
  (async_result c, st').

(** The whole program: the prelude, then the driver. *)
Definition program (body specs : Script) : Promise * State :=
  run_driver body specs init.

End WithHost.

End Harness.

Import Harness.

(* ================================================================== *)
(** ** Vocabulary of the statements *)
(* ================================================================== *)






(** The document a reader of the log expects: an array of objects
    with the members [time] and [message], in the order of the
    entries. *)
Definition entry_document (e : LogEntry) : string :=
  "{" ++ QuoteJSONString "time" ++ ":" ++ Z_to_string (time e) ++ ","
      ++ QuoteJSONString "message" ++ ":" ++ QuoteJSONString (message e) ++ "}".

Definition log_document (l : list LogEntry) : string :=
  "[" ++ String.concat "," (map entry_document l) ++ "]".

(** Number of handoffs in a stretch of the trace. *)
Fixpoint resumes (evs : list Event) : nat :=
  match evs with
  | [] => 0
  | EvResume :: rest => S (resumes rest)
  | _ :: rest => resumes rest
  end.

(** The handler calls in a stretch of the trace. *)
Fixpoint invocations (evs : list Event) : list (FnId * JsVal) :=
  match evs with
  | [] => []
  | EvInvoke fn arg :: rest => (fn, arg) :: invocations rest
  | _ :: rest => invocations rest
  end.

Definition is_exec_event (ev : Event) : bool :=
  match ev with EvExec _ _ => true | _ => false end.

(** The script never calls [registerCallback], whatever its awaited
    operations hand back. *)
Fixpoint no_register (s : Script) : Prop :=
  match s with
  | SDone | SReturn | SThrow _ => True
  | SLog _ _ k => no_register k
  | SRegisterCallback _ _ => False
  | SAwaitExec _ _ k => forall o, no_register (k o)
  | SConsole _ _ k => forall o, no_register (k o)
  end.




(** What running script code can do to the bindings: append log
    entries and calls of [__exec.exec], replace the handler, and
    nothing else. *)
Definition script_effect (st st' : State) : Prop :=
  __internalError st' = __internalError st
  /\ console st' = console st
  /\ (exists entries, __internalLogs st' = (__internalLogs st ++ entries)%list)
  /\ (exists evs, trace st' = (trace st ++ evs)%list
                  /\ forallb is_exec_event evs = true).

Section Deliveries.

Variable JSON_parse : string -> JsVal + JsVal.
Variable host_complete : list Event -> JsVal -> JsVal -> list (JsVal * JsVal).

(** The host pushes the payloads one after the other. *)
Definition deliver_all (payloads : list string) (st : State) : State :=
  fold_left (fun s payload => snd (__doCallback JSON_parse host_complete payload s))
            payloads st.

(** The values of the payloads that parse, in order. *)
Fixpoint parsed (payloads : list string) : list JsVal :=
  match payloads with
  | [] => []
  | p :: rest =>
      match JSON_parse p with
      | inl v => v :: parsed rest
      | inr _ => parsed rest
      end
  end.

End Deliveries.

(** *** A small engine and host to run the harness on *)

Definition SyntaxError (msg : string) : JsVal := EngineError "SyntaxError" msg.

Definition is_digit (c : ascii) : bool :=
  let n := nat_of_ascii c in (Nat.leb 48 n && Nat.leb n 57)%bool.

Fixpoint all_digits (s : string) : bool :=
  match s with
  | EmptyString => true
  | String c rest => (is_digit c && all_digits rest)%bool
  end.

Fixpoint digits_value (acc : Z) (s : string) : Z :=
  match s with
  | EmptyString => acc
  | String c rest => digits_value (10 * acc + Z.of_nat (nat_of_ascii c - 48)) rest
  end.

(** An engine whose [JSON.parse] accepts only the literals [null],
    [true], [false] and the unsigned decimal integers without a
    leading zero.  On these texts, and on the malformed text [{] used
    below, it does what the standard function does. *)
Definition parse_literal (s : string) : JsVal + JsVal :=
  if s =? "null" then inl JNull
  else if s =? "true" then inl (JBool true)
  else if s =? "false" then inl (JBool false)
  else match s with
       | EmptyString => inr (SyntaxError "Unexpected end of JSON input")
       | String c rest =>
           if (is_digit c && all_digits rest
               && (negb (Nat.eqb (nat_of_ascii c) 48) || (rest =? "")))%bool
           then inl (JNum (digits_value 0 s))
           else inr (SyntaxError "Unexpected token in JSON")
       end.

(** A host that completes every request once, with a result. *)
Definition host_ok : list Event -> JsVal -> JsVal -> list (JsVal * JsVal) :=
  fun _ _ _ => [(JObj [("status", JNum 200)], JNull)].

(** A host that completes every request once, with a failure. *)
Definition host_fails : list Event -> JsVal -> JsVal -> list (JsVal * JsVal) :=
  fun _ _ _ => [(JUndefined, JStr "connection refused")].

(** A host that never completes a request. *)
Definition host_silent : list Event -> JsVal -> JsVal -> list (JsVal * JsVal) :=
  fun _ _ _ => [].

(** [new Error(msg)]. *)
Definition Error (msg : string) : JsVal := EngineError "Error" msg.

(** A handler that logs the value it is given. *)
Definition log_handler (now : Z) : JsVal -> Script :=
  fun res => SLog now [res] SDone.

(** A handler that raises what it is given. *)
Definition throwing_handler : JsVal -> Script := fun res => SThrow res.

(** The bindings after [registerCallback(h)], [h] logging its argument. *)
Definition one_handler : State :=
  registerCallback (CbFun 2 (log_handler 9)) init.

(** The bindings after [registerCallback(h1); registerCallback(h2);],
    [h1] raising and [h2] logging its argument. *)
Definition two_handlers : State :=
  registerCallback (CbFun 2 (log_handler 9))
    (registerCallback (CbFun 1 throwing_handler) init).


(** [log("a"); await exec(1, "env1"); log("b");] *)
Definition log_exec_log : Script :=
  SLog 10 [JStr "a"]
    (SAwaitExec (JNum 1) (JStr "env1")
       (fun o => match o with
                 | Returned _ => SLog 20 [JStr "b"] SDone
                 | Raised e => SThrow e
                 end)).

(* ================================================================== *)
(** ** Reading a log document back *)
(* ================================================================== *)

(** A reader for the documents [__getInternalLogs] writes, used to
    show that a document determines the buffer it was written from. *)
Module LogReader.

(** Strips the literal [lit] from the front of [s]. *)
Fixpoint expect (lit s : string) : option string :=
  match lit with
  | EmptyString => Some s
  | String c lit' =>
      match s with
      | EmptyString => None
      | String c' s' => if Ascii.eqb c c' then expect lit' s' else None
      end
  end.

Definition is_number_char (c : ascii) : bool :=
  let n := nat_of_ascii c in
  (Nat.eqb n 45 || (Nat.leb 48 n && Nat.leb n 57))%bool.

(** The longest prefix made of digits and minus signs, and the rest. *)
Fixpoint span_number (s : string) : string * string :=
  match s with
  | EmptyString => ("", "")
  | String c rest =>
      if is_number_char c
      then let (num, after) := span_number rest in (String c num, after)
      else ("", s)
  end.

Definition read_number (s : string) : option (Z * string) :=
  let (num, after) := span_number s in
  match NilZero.int_of_string num with
  | Some d => Some (Z.of_int d, after)
  | None => None
  end.

Definition hex_value (c : ascii) : option nat :=
  let n := nat_of_ascii c in
  if (Nat.leb 48 n && Nat.leb n 57)%bool then Some (n - 48)
  else if (Nat.leb 97 n && Nat.leb n 102)%bool then Some (n - 87)
  else if (Nat.leb 65 n && Nat.leb n 70)%bool then Some (n - 55)
  else None.

(** The character an escape letter stands for. *)
Definition unescape (c : ascii) : option ascii :=
  let n := nat_of_ascii c in
  if Nat.eqb n 34 then Some dquote
  else if Nat.eqb n 92 then Some backslash
  else if Nat.eqb n 98 then Some (ascii_of_nat 8)
  else if Nat.eqb n 116 then Some (ascii_of_nat 9)
  else if Nat.eqb n 110 then Some (ascii_of_nat 10)
  else if Nat.eqb n 102 then Some (ascii_of_nat 12)
  else if Nat.eqb n 114 then Some (ascii_of_nat 13)
  else None.

(** Reads the inside of a quoted string up to its closing quote: the
    text it denotes, and what follows the quote. *)
Fixpoint read_quoted (s : string) : option (string * string) :=
  match s with
  | EmptyString => None
  | String c rest =>
      if Ascii.eqb c dquote then Some ("", rest)
      else if Ascii.eqb c backslash then
        match rest with
        | EmptyString => None
        | String e rest' =>
            if Nat.eqb (nat_of_ascii e) 117 then
              match rest' with
              | String h1 (String h2 (String h3 (String h4 rest''))) =>
                  match hex_value h1, hex_value h2, hex_value h3, hex_value h4 with
                  | Some 0, Some 0, Some a, Some b =>
                      match read_quoted rest'' with
                      | Some (text, after) =>
                          Some (String (ascii_of_nat (16 * a + b)) text, after)
                      | None => None
                      end
                  | _, _, _, _ => None
                  end
              | _ => None
              end
            else
              match unescape e with
              | Some ch =>
                  match read_quoted rest' with
                  | Some (text, after) => Some (String ch text, after)
                  | None => None
                  end
              | None => None
              end
        end
      else
        match read_quoted rest with
        | Some (text, after) => Some (String c text, after)
        | None => None
        end
  end.

(** Reads one [{"time":...,"message":"..."}]. *)
Definition read_entry (s : string) : option (LogEntry * string) :=
  match expect ("{" ++ QuoteJSONString "time" ++ ":") s with
  | None => None
  | Some s1 =>
      match read_number s1 with
      | None => None
      | Some (t, s2) =>
          match expect ("," ++ QuoteJSONString "message" ++ ":" ++ String dquote "") s2 with
          | None => None
          | Some s3 =>
              match read_quoted s3 with
              | None => None
              | Some (m, s4) =>
                  match expect "}" s4 with
                  | None => None
                  | Some s5 => Some ({| time := t; message := m |}, s5)
                  end
              end
          end
      end
  end.

(** Reads entries separated by commas up to the closing bracket. *)
Fixpoint read_entries (fuel : nat) (s : string) : option (list LogEntry) :=
  match fuel with
  | O => None
  | S fuel' =>
      match read_entry s with
      | None => None
      | Some (e, after) =>
          if after =? "]" then Some [e]
          else match expect "," after with
               | None => None
               | Some more =>
                   match read_entries fuel' more with
                   | Some l => Some (e :: l)
                   | None => None
                   end
               end
      end
  end.

Definition read_log_document (s : string) : option (list LogEntry) :=
  if s =? "[]" then Some []
  else match expect "[" s with
       | None => None
       | Some body => read_entries (String.length s) body
       end.

End LogReader.

(* ================================================================== *)
(** ** Client utilities: strings, key/value rows, identifiers *)
(* ================================================================== *)

(** Functions of [client/src/utils/index.tsx] that work on strings,
    rows and objects.  A character of a string stands for the UTF-16
    code unit of the same number, so the strings covered are those
    whose code units are below 256. *)
Module Utils.

(** *** String primitives of the engine *)

(** WhiteSpace and LineTerminator code units below 256: TAB, LF, VT,
    FF, CR, SP and NBSP. *)
Definition is_whitespace (c : ascii) : bool :=
  let n := nat_of_ascii c in
  (Nat.eqb n 9 || Nat.eqb n 10 || Nat.eqb n 11 || Nat.eqb n 12
   || Nat.eqb n 13 || Nat.eqb n 32 || Nat.eqb n 160)%bool.

Fixpoint trimStart (s : string) : string :=
  match s with
  | EmptyString => ""
  | String c rest => if is_whitespace c then trimStart rest else s
  end.

Fixpoint trimEnd (s : string) : string :=
  match s with
  | EmptyString => ""
  | String c rest =>
      let rest' := trimEnd rest in
      if (is_whitespace c && (rest' =? ""))%bool then "" else String c rest'
  end.

(** [String.prototype.trim]. *)
Definition trim (s : string) : string := trimEnd (trimStart s).


(** [String.prototype.includes]. *)
Fixpoint includes (s searchString : string) : bool :=
  if String.prefix searchString s then true
  else match s with
       | EmptyString => false
       | String _ rest => includes rest searchString
       end.

(** [String.prototype.split] with a separator of one code unit, which
    is how every call below uses it.  The result is never empty. *)
Fixpoint split (s : string) (separator : ascii) : list string :=
  match s with
  | EmptyString => [""]
  | String c rest =>
      if Ascii.eqb c separator then "" :: split rest separator
      else match split rest separator with
           | [] => [String c ""]
           | piece :: pieces => String c piece :: pieces
           end
  end.

(** [Array.prototype.join] on an array of strings. *)
Definition join (l : list string) (separator : string) : string :=
  String.concat separator l.


(** *** parseInt *)







(** *** Lines 95-110 *)

Definition appendHttpIfNoProtocol (uri : option string) : string :=
  match uri with
  | None => ""
  | Some u =>
      if u =? "" then ""
      else if negb (includes u "://") then "http://" ++ u
      else u
  end.

Definition groupsArrayToStr (groups : option (list string)) : string :=
  match groups with
  | Some g => join g ","
  | None => ""
  end.

Definition groupsStrToArray (groups : string) : list string :=
  filter (fun el => negb (el =? "")) (split groups ",").

(** *** Lines 150-165 *)




(** *** Lines 129-148 *)



(** *** Key/value rows *)

(** The declaration of [KVRow] ([model/KVRow]) is not among the
    sources; a row is taken with the three fields these functions
    read and write, [isEnabled] being optional. *)
Record KVRow : Type := mkKVRow {
  key : string;
  value : string;
  isEnabled : option bool
}.

(** [{ key, value }]. *)
Definition plain_row (k v : string) : KVRow :=
  {| key := k; value := v; isEnabled := None |}.

(** [param.isEnabled === false]. *)
Definition is_disabled (param : KVRow) : bool :=
  match isEnabled param with
  | Some false => true
  | _ => false
  end.

(** *** Lines 257-322 *)

(** The callback of the [map] in lines 263-269: the text before the
    first [=] and the text after it. *)
Definition uri_param (kv : string) : KVRow :=
  match split kv "=" with
  | k :: v => plain_row k (join v "=")
  | [] => plain_row "" ""
  end.

Definition warn_enabled : string :=
  "params and URI params out of sync (enabled params > URI params)".

Definition warn_uri : string :=
  "params and URI params out of sync (URI params > enabled params)".

(** The loop of lines 278-291, started with [indexEnabledParams] at
    [index]: the rows pushed, the warnings given to [console.warn],
    and the final value of the index. *)
Fixpoint merge_params (params uriParams : list KVRow) (index : nat)
  : list KVRow * list string * nat :=
  match params with
  | [] => ([], [], index)
  | param :: rest =>
      if is_disabled param then
        let '(rows, warnings, final) := merge_params rest uriParams index in
        (param :: rows, warnings, final)
      else
        let '(rows, warnings, final) := merge_params rest uriParams (S index) in
        match nth_error uriParams index with
        | Some uriParam => (uriParam :: rows, warnings, final)
        | None => (plain_row "" "" :: rows, warn_enabled :: warnings, final)
        end
  end.

(** The rows returned and the warnings given to [console.warn]. *)
Definition getParamsFromUri (uri : string) (params : option (list KVRow))
  : list KVRow * list string :=
  let no_query :=
    (match params with
     | Some ps => filter is_disabled ps
     | None => []
     end, []) in
  match nth_error (split uri "?") 1 with
  | None => no_query
  | Some paramString =>
      if paramString =? "" then no_query
      else
        let uriParams := map uri_param (split paramString "&") in
        match params with
        | None => (uriParams, [])
        | Some ps =>
            let '(newParams, warnings, indexEnabledParams) :=
              merge_params ps uriParams 0 in
            ((newParams ++ skipn indexEnabledParams uriParams)%list,
             (warnings ++
              (if Nat.ltb indexEnabledParams (List.length uriParams)
               then [warn_uri] else []))%list)
        end
  end.

(** The loop of lines 311-317 from index [i] on. *)
Fixpoint search_params (i : nat) (params : list KVRow) (searchParams : string)
  : string :=
  match params with
  | [] => searchParams
  | param :: rest =>
      if ((key param =? "") && (value param =? ""))%bool
      then search_params (S i) rest searchParams
      else search_params (S i) rest
             ((if Nat.eqb i 0 then searchParams else searchParams ++ "&")
              ++ key param ++ "=" ++ value param)
  end.

Definition getUriFromParams (uri : string) (params : list KVRow) : string :=
  let newUri := if negb (includes uri "?") then uri ++ "?" else uri in
  let base := match split newUri "?" with
              | b :: _ => b
              | [] => ""
              end in
  let searchParams := search_params 0 params "" in
  if searchParams =? "" then base else base ++ "?" ++ searchParams.

(** *** Lines 112-127 *)

(** An object with string values: its own properties in the order in
    which they were created. *)
Definition JsObject : Type := list (string * string).

(** The properties every object inherits from [Object.prototype];
    each is a function or an object, hence truthy. *)
Definition Object_prototype_names : list string :=
  ["constructor"; "__defineGetter__"; "__defineSetter__"; "hasOwnProperty";
   "__lookupGetter__"; "__lookupSetter__"; "isPrototypeOf";
   "propertyIsEnumerable"; "toString"; "valueOf"; "__proto__";
   "toLocaleString"].

Definition inherited (k : string) : bool :=
  existsb (String.eqb k) Object_prototype_names.

Fixpoint own (k : string) (o : JsObject) : option string :=
  match o with
  | [] => None
  | (k', v) :: rest => if k' =? k then Some v else own k rest
  end.

(** ToBoolean of [o[k]]. *)
Definition get_truthy (o : JsObject) (k : string) : bool :=
  match own k o with
  | Some v => negb (v =? "")
  | None => inherited k
  end.

(** [o[k] = v] for a name that is not inherited: an existing property
    keeps its place, a new one goes last. *)
Fixpoint put (k v : string) (o : JsObject) : JsObject :=
  match o with
  | [] => [(k, v)]
  | (k', v') :: rest =>
      if k' =? k then (k, v) :: rest else (k', v') :: put k v rest
  end.

(** The callback of the [forEach] in lines 115-119. *)
Definition add_row (res : JsObject) (row : KVRow) : JsObject :=
  if key row =? "" then res
  else if get_truthy res (key row) then res
  else put (key row) (value row) res.

Definition kvRowsToMap (rows : option (list KVRow)) : JsObject :=
  match rows with
  | None => []
  | Some rs => fold_left add_row rs []
  end.

(** A property name that is an array index: the canonical decimal
    form of an integer below [2^32 - 1]. *)
Definition array_index (k : string) : option Z :=
  match k with
  | EmptyString => None
  | String c rest =>
      if (all_digits k
          && (negb (Nat.eqb (nat_of_ascii c) 48) || (rest =? "")))%bool
      then let n := digits_value 0 k in
           if (n <? 4294967295)%Z then Some n else None
      else None
  end.

Fixpoint insert_by_index (e : Z * (string * string))
         (l : list (Z * (string * string))) : list (Z * (string * string)) :=
  match l with
  | [] => [e]
  | e' :: rest =>
      if (fst e <=? fst e')%Z then e :: l else e' :: insert_by_index e rest
  end.

Definition index_entries (o : JsObject) : list (Z * (string * string)) :=
  flat_map (fun kv => match array_index (fst kv) with
                      | Some n => [(n, kv)]
                      | None => []
                      end) o.

(** [Object.entries]: the array indices in ascending order, then the
    other names in the order of their creation. *)
Definition Object_entries (o : JsObject) : list (string * string) :=
  (map snd (fold_right insert_by_index [] (index_entries o))
   ++ filter (fun kv => match array_index (fst kv) with
                        | Some _ => false
                        | None => true
                        end) o)%list.

Definition mapToKvRows (map : JsObject) : list KVRow :=
  List.map (fun kv => plain_row (fst kv) (snd kv)) (Object_entries map).

(** *** Lines 13-19 *)

(** [styles] gives the class bound to a name of the style sheet, if
    there is one. *)
Definition cn (styles : string -> option string) (name : string)
           (variants : list string) : string :=
  let variantCns :=
    trim (join (map (fun v => match styles (name ++ "--" ++ v) with
                              | Some c => c
                              | None => ""
                              end) variants) " ") in
  trim (match styles name with Some c => c | None => "" end
        ++ " " ++ variantCns).

(** *** Lines 250-255 *)

(** Regular expressions without back-references or look-around, which
    is all the pattern of [validateCronExpression] uses.  For such a
    pattern anchored at both ends, [RegExp.prototype.test] answers
    whether the whole string belongs to the language of the pattern. *)
Inductive regex : Type :=
| Void
| Eps
| Class (p : ascii -> bool)
| Cat (r1 r2 : regex)
| Alt (r1 r2 : regex)
| Star (r : regex).

Fixpoint nullable (r : regex) : bool :=
  match r with
  | Void => false
  | Eps => true
  | Class _ => false
  | Cat r1 r2 => (nullable r1 && nullable r2)%bool
  | Alt r1 r2 => (nullable r1 || nullable r2)%bool
  | Star _ => true
  end.

(** What is left to match after the character [c]. *)
Fixpoint derive (c : ascii) (r : regex) : regex :=
  match r with
  | Void => Void
  | Eps => Void
  | Class p => if p c then Eps else Void
  | Cat r1 r2 =>
      if nullable r1
      then Alt (Cat (derive c r1) r2) (derive c r2)
      else Cat (derive c r1) r2
  | Alt r1 r2 => Alt (derive c r1) (derive c r2)
  | Star r' => Cat (derive c r') (Star r')
  end.

Fixpoint regex_test (r : regex) (s : string) : bool :=
  match s with
  | EmptyString => nullable r
  | String c rest => regex_test (derive c r) rest
  end.

(** [c], [r+], [r?] and [r{3}]. *)
Definition Chr (c : ascii) : regex := Class (Ascii.eqb c).
Definition Plus (r : regex) : regex := Cat r (Star r).
Definition Opt (r : regex) : regex := Alt r Eps.
Definition Rep3 (r : regex) : regex := Cat r (Cat r r).

(** [\d] and [[A-Z]]. *)
Definition Digit : regex :=
  Class (fun c => (Nat.leb 48 (nat_of_ascii c) && Nat.leb (nat_of_ascii c) 57)%bool).
Definition Upper : regex :=
  Class (fun c => (Nat.leb 65 (nat_of_ascii c) && Nat.leb (nat_of_ascii c) 90)%bool).

(** One field of the expression: the seven alternatives of the
    innermost group. *)
Definition cronField : regex :=
  Alt (Cat (Plus (Cat (Plus Digit) (Chr ","))) (Plus Digit))
 (Alt (Cat (Plus Digit)
           (Cat (Alt (Chr "/") (Alt (Chr "-") (Chr "#"))) (Plus Digit)))
 (Alt (Cat (Plus Digit) (Opt (Chr "L")))
 (Alt (Cat (Chr "*") (Opt (Cat (Chr "/") (Plus Digit))))
 (Alt (Cat (Chr "L") (Opt (Cat (Chr "-") (Plus Digit))))
 (Alt (Chr "?")
      (Cat (Rep3 Upper) (Opt (Cat (Chr "-") (Rep3 Upper))))))))).

(** A field and the optional space after it. *)
Definition cronItem : regex := Cat cronField (Opt (Chr " ")).

(** [(item){5,7}] between [^] and [$]. *)
Definition cronRegex : regex :=
  Cat cronItem (Cat cronItem (Cat cronItem (Cat cronItem (Cat cronItem
    (Cat (Opt cronItem) (Opt cronItem)))))).

Definition validateCronExpression (cronExpression : string) : bool :=
  if cronExpression =? "" then true
  else regex_test cronRegex cronExpression.

End Utils.

(** The text of a URI before its first question mark
    ([uri.split('?')[0]]). *)
Definition uri_base (uri : string) : string :=
  match Utils.split uri "?" with
  | b :: _ => b
  | [] => ""
  end.

(** What a parameter row contributes to a query string. *)
Definition row_text (row : Utils.KVRow) : string :=
  Utils.key row ++ "=" ++ Utils.value row.

(** A row that [getUriFromParams] does not skip. *)
Definition not_blank (row : Utils.KVRow) : Prop :=
  Utils.key row <> "" \/ Utils.value row <> "".

(** The rows of a list that are not disabled. *)
Definition enabled_rows (rows : list Utils.KVRow) : list Utils.KVRow :=
  filter (fun row => negb (Utils.is_disabled row)) rows.

(** A row that [getUriFromParams] writes and [getParamsFromUri] reads
    back unchanged: not blank, and free of the characters that
    delimit a query. *)
Definition row_writable (row : Utils.KVRow) : Prop :=
  (Utils.key row <> "" \/ Utils.value row <> "")
  /\ Utils.includes (Utils.key row) "=" = false
  /\ Utils.includes (Utils.key row) "&" = false
  /\ Utils.includes (Utils.key row) "?" = false
  /\ Utils.includes (Utils.value row) "&" = false
  /\ Utils.includes (Utils.value row) "?" = false.

(** The value expected under [k] after [kvRowsToMap]: the first value
    given for [k] that is not empty, or the empty string when [k] is
    only given empty values. *)
Fixpoint kept_value (k : string) (rows : list Utils.KVRow) : option string :=
  match rows with
  | [] => None
  | row :: rest =>
      if Utils.key row =? k then
        if Utils.value row =? "" then
          match kept_value k rest with
          | Some v => Some v
          | None => Some ""
          end
        else Some (Utils.value row)
      else kept_value k rest
  end.

(** The language of a regular expression. *)
Inductive Match : Utils.regex -> string -> Prop :=
| MEps : Match Utils.Eps ""
| MClass (p : ascii -> bool) (c : ascii) :
    p c = true -> Match (Utils.Class p) (String c "")
| MCat (r1 r2 : Utils.regex) (s1 s2 : string) :
    Match r1 s1 -> Match r2 s2 -> Match (Utils.Cat r1 r2) (s1 ++ s2)
| MAltL (r1 r2 : Utils.regex) (s : string) :
    Match r1 s -> Match (Utils.Alt r1 r2) s
| MAltR (r1 r2 : Utils.regex) (s : string) :
    Match r2 s -> Match (Utils.Alt r1 r2) s
| MStarNil (r : Utils.regex) : Match (Utils.Star r) ""
| MStarApp (r : Utils.regex) (s1 s2 : string) :
    Match r s1 -> Match (Utils.Star r) s2 -> Match (Utils.Star r) (s1 ++ s2).

(** Whether the character can occur in a string of the language. *)
Fixpoint may_occur (r : Utils.regex) (c : ascii) : bool :=
  match r with
  | Utils.Void | Utils.Eps => false
  | Utils.Class p => p c
  | Utils.Cat r1 r2 | Utils.Alt r1 r2 => (may_occur r1 c || may_occur r2 c)%bool
  | Utils.Star r' => may_occur r' c
  end.

(** The characters of cron expressions: digits, capital letters and
    the signs [,/-#*?] and the space. *)
Definition cron_char (c : ascii) : bool :=
  let n := nat_of_ascii c in
  ((Nat.leb 48 n && Nat.leb n 57) || (Nat.leb 65 n && Nat.leb n 90)
   || Nat.eqb n 44 || Nat.eqb n 47 || Nat.eqb n 45 || Nat.eqb n 35
   || Nat.eqb n 42 || Nat.eqb n 63 || Nat.eqb n 32)%bool.



(** Induction on a script, with the names used throughout. *)
Ltac script_induction s :=
  induction s as [ | | e | now messages k IH | callback k IH
                 | requestId envName k IH | method args k IH ].

(* ================================================================== *)
(** ** Traces *)
(* ================================================================== *)

Open Scope list_scope.

Lemma resumes_app (a b : list Event) :
  resumes (a ++ b) = resumes a + resumes b.
Proof.
  induction a as [|ev a IH]; simpl; [reflexivity|].
  destruct ev; simpl; rewrite IH; reflexivity.
Qed.

Lemma invocations_app (a b : list Event) :
  invocations (a ++ b) = invocations a ++ invocations b.
Proof.
  induction a as [|ev a IH]; simpl; [reflexivity|].
  destruct ev; simpl; rewrite IH; reflexivity.
Qed.

Lemma exec_events_no_resume (evs : list Event) :
  forallb is_exec_event evs = true -> resumes evs = 0.
Proof.
  induction evs as [|ev evs IH]; simpl; [reflexivity|].
  destruct ev; simpl; intro H; try discriminate; auto.
Qed.

Lemma exec_events_no_invocation (evs : list Event) :
  forallb is_exec_event evs = true -> invocations evs = [].
Proof.
  induction evs as [|ev evs IH]; simpl; [reflexivity|].
  destruct ev; simpl; intro H; try discriminate; auto.
Qed.

(* ================================================================== *)
(** ** The async bridge *)
(* ================================================================== *)

Lemma onComplete_pending (result error : JsVal) :
  onComplete result error Pending
  = if truthy error then Rejected error else Fulfilled result.
Proof. unfold onComplete. destruct (truthy error); reflexivity. Qed.

Lemma onComplete_settled (result error : JsVal) (p : Promise) :
  p <> Pending -> onComplete result error p = p.
Proof.
  unfold onComplete, reject, resolve.
  destruct p; [congruence| |]; destruct (truthy error); reflexivity.
Qed.

(** Later firings of the completion callback leave a settled promise
    alone. *)
Lemma firings_settled (cs : list (JsVal * JsVal)) (p : Promise) :
  p <> Pending ->
  fold_left (fun q (c : JsVal * JsVal) => onComplete (fst c) (snd c) q) cs p = p.
Proof.
  revert p. induction cs as [|c cs IH]; intros p Hp; simpl; [reflexivity|].
  rewrite onComplete_settled by assumption. apply IH; assumption.
Qed.

Section Bridge.

Variable host_complete : list Event -> JsVal -> JsVal -> list (JsVal * JsVal).

Lemma exec_first_firing (requestId envName : JsVal) (st : State)
      (result error : JsVal) (more : list (JsVal * JsVal)) :
  host_complete (trace st) requestId envName = (result, error) :: more ->
  fst (exec host_complete requestId envName st)
  = if truthy error then Rejected error else Fulfilled result.
Proof.
  intro Hhost. unfold exec. simpl. rewrite Hhost. simpl.
  rewrite onComplete_pending.
  apply firings_settled. destruct (truthy error); discriminate.
Qed.

Lemma exec_never_fired (requestId envName : JsVal) (st : State) :
  host_complete (trace st) requestId envName = [] ->
  fst (exec host_complete requestId envName st) = Pending.
Proof. intro Hhost. unfold exec. simpl. rewrite Hhost. reflexivity. Qed.

Lemma exec_state (requestId envName : JsVal) (st : State) :
  snd (exec host_complete requestId envName st)
  = emit (EvExec requestId envName) st.
Proof. reflexivity. Qed.

(** C7.  When the host fires the completion callback of an [exec] call
    with a failure, the promise returned by [exec] rejects with that
    very value; when it fires it with a result and no failure, the
    promise fulfils with that result.  A failure is present when the
    second argument of the callback is truthy, which is the test the
    callback makes. *)
Theorem exec_settles_as_delivered
        (requestId envName : JsVal) (st : State)
        (result error : JsVal) (more : list (JsVal * JsVal)) :
  host_complete (trace st) requestId envName = (result, error) :: more ->
  (truthy error = true ->
     fst (exec host_complete requestId envName st) = Rejected error)
  /\ (truthy error = false ->
        fst (exec host_complete requestId envName st) = Fulfilled result).
Proof.
  intro Hhost.
  pose proof (@exec_first_firing requestId envName st result error more Hhost) as Hfirst.
  split; intro Ht; rewrite Ht in Hfirst; exact Hfirst.
Qed.

(** C9.  The completion callback chooses between rejecting and
    fulfilling by the truthiness of its failure argument alone; with
    [null], [undefined], [0] or the empty string in that position (and
    with any falsy value), the promise fulfils with the result
    argument, whatever that is. *)
Theorem exec_falsy_failure_fulfils
        (requestId envName : JsVal) (st : State)
        (result error : JsVal) (more : list (JsVal * JsVal)) :
  host_complete (trace st) requestId envName = (result, error) :: more ->
  fst (exec host_complete requestId envName st)
  = (if truthy error then Rejected error else Fulfilled result)
  /\ (In error [JNull; JUndefined; JNum 0; JStr ""; JBool false; JNaN] ->
        fst (exec host_complete requestId envName st) = Fulfilled result).
Proof.
  intro Hhost.
  pose proof (@exec_first_firing requestId envName st result error more Hhost) as Hfirst.
  split; [exact Hfirst|].
  intro Hin. rewrite Hfirst.
  simpl in Hin.
  repeat (destruct Hin as [<- | Hin]; [reflexivity|]).
  contradiction.
Qed.

End Bridge.

(* ================================================================== *)
(** ** Capture buffers *)
(* ================================================================== *)

Lemma string_app_assoc (a b c : string) :
  ((a ++ b) ++ c)%string = (a ++ (b ++ c))%string.
Proof.
  induction a as [|ch a IH]; simpl; [reflexivity|].
  rewrite IH. reflexivity.
Qed.


Lemma stringify_entry (e : LogEntry) :
  JSON_stringify (LogEntry_to_js e) = Some (entry_document e).
Proof.
  destruct e as [t m]. unfold LogEntry_to_js, entry_document. simpl.
  f_equal. f_equal.
  repeat (rewrite string_app_assoc; simpl). reflexivity.
Qed.

Lemma stringify_entries (l : list LogEntry) :
  JSON_stringify (JArr (map LogEntry_to_js l)) = Some (log_document l).
Proof.
  unfold log_document. simpl. do 3 f_equal.
  rewrite map_map. f_equal. apply map_ext. intro e.
  rewrite stringify_entry. reflexivity.
Qed.




Lemma getInternalLogs_value (st : State) :
  fst (__getInternalLogs st) = JStr (log_document (__internalLogs st)).
Proof.
  unfold __getInternalLogs. rewrite stringify_entries. reflexivity.
Qed.



(* ================================================================== *)
(** ** What script code can and cannot change *)
(* ================================================================== *)

Lemma script_effect_refl (st : State) : script_effect st st.
Proof.
  unfold script_effect. repeat split.
  - exists []. rewrite app_nil_r. reflexivity.
  - exists []. rewrite app_nil_r. split; reflexivity.
Qed.

Lemma script_effect_trans (a b c : State) :
  script_effect a b -> script_effect b c -> script_effect a c.
Proof.
  intros (He1 & Hc1 & [l1 Hl1] & [t1 [Ht1 Hx1]])
         (He2 & Hc2 & [l2 Hl2] & [t2 [Ht2 Hx2]]).
  unfold script_effect. repeat split.
  - congruence.
  - congruence.
  - exists (l1 ++ l2). rewrite Hl2, Hl1, app_assoc. reflexivity.
  - exists (t1 ++ t2). split.
    + rewrite Ht2, Ht1, app_assoc. reflexivity.
    + rewrite forallb_app, Hx1, Hx2. reflexivity.
Qed.

Lemma log_effect (now : Z) (messages : list JsVal) (st : State) :
  script_effect st (log now messages st).
Proof.
  unfold script_effect; simpl. repeat split.
  - eexists; reflexivity.
  - exists []. rewrite app_nil_r. split; reflexivity.
Qed.

Lemma registerCallback_effect (callback : Callback) (st : State) :
  script_effect st (registerCallback callback st).
Proof.
  unfold script_effect; simpl. repeat split.
  - exists []. rewrite app_nil_r. reflexivity.
  - exists []. rewrite app_nil_r. split; reflexivity.
Qed.

Lemma emit_exec_effect (requestId envName : JsVal) (st : State) :
  script_effect st (emit (EvExec requestId envName) st).
Proof.
  unfold script_effect; simpl. repeat split.
  - exists []. rewrite app_nil_r. reflexivity.
  - eexists. split; reflexivity.
Qed.

Section Run.

Variable host : list Event -> JsVal -> JsVal -> list (JsVal * JsVal).

(** Script code leaves the error slot and the [console] binding
    alone, only ever appends to the log buffer, and makes no call on
    the continuation. *)
Lemma exec_script_effect (s : Script) :
  forall st, script_effect st (snd (exec_script host s st)).
Proof.
  script_induction s;
    intro st; simpl; try apply script_effect_refl.
  - eapply script_effect_trans; [apply log_effect | apply IH].
  - eapply script_effect_trans; [apply registerCallback_effect | apply IH].
  - destruct (await _) as [o|]; simpl.
    + eapply script_effect_trans; [apply emit_exec_effect | apply IH].
    + apply emit_exec_effect.
  - apply IH.
Qed.

Lemma try_block_effect (body specs : Script) (st : State) :
  script_effect st (snd (try_block host body specs st)).
Proof.
  unfold try_block.
  pose proof (exec_script_effect body st) as Hbody.
  destruct (exec_script host body st) as [c st1]; simpl in Hbody.
  destruct c; simpl; try exact Hbody.
  pose proof (exec_script_effect specs st1) as Hspecs.
  destruct (exec_script host specs st1) as [c' st2]; simpl in *.
  eapply script_effect_trans; eassumption.
Qed.


(** *** The driver, case by case *)

Lemma run_driver_completes (body specs : Script) (st : State) {st' : State} {c : Completion} :
  try_block host body specs st = (c, st') ->
  c = CNormal \/ c = CReturn ->
  run_driver host body specs st = (Fulfilled JUndefined, resume st').
Proof.
  intros Htry Hc. unfold run_driver, try_catch.
  rewrite Htry. destruct Hc as [-> | ->]; reflexivity.
Qed.

Lemma run_driver_captures (body specs : Script) (st : State) {st' : State} {e m : JsVal} :
  try_block host body specs st = (CThrow e, st') ->
  get_message e = inl m ->
  run_driver host body specs st
  = (Fulfilled JUndefined, resume (set_internalError m st')).
Proof.
  intros Htry Hm. unfold run_driver, try_catch, catch_block.
  rewrite Htry, Hm. reflexivity.
Qed.

Lemma run_driver_catch_raises (body specs : Script) (st : State) {st' : State} {e err : JsVal} :
  try_block host body specs st = (CThrow e, st') ->
  get_message e = inr err ->
  run_driver host body specs st = (Rejected err, resume st').
Proof.
  intros Htry Hm. unfold run_driver, try_catch, catch_block.
  rewrite Htry, Hm. reflexivity.
Qed.

Lemma run_driver_suspended (body specs : Script) (st : State) {st' : State} :
  try_block host body specs st = (CPending, st') ->
  run_driver host body specs st = (Pending, st').
Proof.
  intros Htry. unfold run_driver, try_catch.
  rewrite Htry. reflexivity.
Qed.

(** The driver calls [resume] once, as the last thing it does,
    whenever the [try] block is left at all; the promise it returns is
    then settled. *)
Lemma run_driver_resumes_once (body specs : Script) (st : State) :
  fst (try_block host body specs st) <> CPending ->
  fst (run_driver host body specs st) <> Pending
  /\ exists evs,
       trace (snd (run_driver host body specs st)) = trace st ++ evs ++ [EvResume]
       /\ resumes evs = 0.
Proof.
  intro Hleft.
  pose proof (try_block_effect body specs st) as Heff.
  destruct (try_block host body specs st) as [c st'] eqn:Htry; simpl in *.
  destruct Heff as (_ & _ & _ & [evs [Htr Hexec]]).
  assert (Hres : resumes evs = 0) by (apply exec_events_no_resume; exact Hexec).
  destruct c as [ | | e | ]; [ | | | congruence ].
  - rewrite (run_driver_completes body specs st Htry) by (left; reflexivity).
    simpl. split; [discriminate|]. exists evs. rewrite Htr, app_assoc. auto.
  - rewrite (run_driver_completes body specs st Htry) by (right; reflexivity).
    simpl. split; [discriminate|]. exists evs. rewrite Htr, app_assoc. auto.
  - destruct (get_message e) as [m|err] eqn:Hm.
    + rewrite (run_driver_captures body specs st Htry Hm).
      simpl. split; [discriminate|]. exists evs. rewrite Htr, app_assoc. auto.
    + rewrite (run_driver_catch_raises body specs st Htry Hm).
      simpl. split; [discriminate|]. exists evs. rewrite Htr, app_assoc. auto.
Qed.

(** While the [try] block is suspended for good, no handoff is made. *)
Lemma run_driver_suspended_no_resume (body specs : Script) (st : State) :
  fst (try_block host body specs st) = CPending ->
  fst (run_driver host body specs st) = Pending
  /\ exists evs,
       trace (snd (run_driver host body specs st)) = trace st ++ evs
       /\ resumes evs = 0.
Proof.
  intro Hsusp.
  pose proof (try_block_effect body specs st) as Heff.
  destruct (try_block host body specs st) as [c st'] eqn:Htry; simpl in *. subst c.
  rewrite (run_driver_suspended body specs st Htry). simpl.
  destruct Heff as (_ & _ & _ & [evs [Htr Hexec]]).
  split; [reflexivity|]. exists evs. split; [exact Htr|].
  apply exec_events_no_resume; exact Hexec.
Qed.

End Run.

(* ================================================================== *)
(** ** The run driver *)
(* ================================================================== *)

Section Driver.

Variable host : list Event -> JsVal -> JsVal -> list (JsVal * JsVal).

(** The error slot and the [console] binding are still those of the
    prelude when the [try] block is left. *)
Lemma try_block_init (body specs : Script) :
  __internalError (snd (try_block host body specs init)) = JNull
  /\ console (snd (try_block host body specs init)) = JNull.
Proof.
  destruct (try_block_effect host body specs init) as (He & Hc & _).
  split; assumption.
Qed.

(** C1.  The claim fails at the script body [throw null;] (and at
    [throw undefined;]): the [catch] clause reads [e.message] of the
    thrown value, that read raises a TypeError, nothing is stored in
    the error slot, and the promise of the driver rejects with the
    TypeError.  The handoff itself is still made, once and last. *)
Theorem throw_null_escapes_catch (specs : Script) :
  program host (SThrow JNull) specs
  = (Rejected (TypeError "Cannot read property 'message' of null"),
     resume init)
  /\ program host (SThrow JUndefined) specs
     = (Rejected (TypeError "Cannot read property 'message' of undefined"),
        resume init)
  /\ __internalError (resume init) = JNull
  /\ trace (resume init) = [EvResume].
Proof.
  split; [reflexivity|]. split; [reflexivity|]. split; reflexivity.
Qed.


(** C10.  The [catch] clause stores [e.message] and nothing else of
    the thrown value [e].  When [e] has no [message] property, the
    error slot is [undefined] (or, for [null] and [undefined]
    themselves, still [null]) after the run: it is absent, exactly as
    it is after a run that did not fail. *)
Theorem message_less_failure_reads_as_success
        (body specs : Script) (e : JsVal) (st' : State) :
  try_block host body specs init = (CThrow e, st') ->
  let slot := __internalError (snd (program host body specs)) in
  (forall m, get_message e = inl m -> slot = m)
  /\ (has_message e = false ->
        is_nullish slot = true
        /\ (is_nullish e = false -> slot = JUndefined)
        /\ forall body' specs' c st'',
             try_block host body' specs' init = (c, st'') ->
             c = CNormal \/ c = CReturn ->
             is_nullish (__internalError (snd (program host body' specs'))) = true).
Proof.
  intros Htry slot.
  assert (Hst' : __internalError st' = JNull).
  { pose proof (try_block_init body specs) as [He _].
    rewrite Htry in He. exact He. }
  assert (Hread : forall m, get_message e = inl m -> slot = m).
  { intros m Hm. unfold slot, program.
    rewrite (run_driver_captures host _ _ _ Htry Hm). reflexivity. }
  split; [exact Hread|].
  intro Hnone. split; [|split].
  - destruct (get_message e) as [m|err] eqn:Hm.
    + rewrite (Hread m eq_refl).
      destruct e; simpl in Hm; try (inversion Hm; reflexivity); try discriminate.
      simpl in Hnone. destruct (lookup "message" fields); [discriminate|].
      inversion Hm. reflexivity.
    + unfold slot, program.
      rewrite (run_driver_catch_raises host _ _ _ Htry Hm). simpl.
      rewrite Hst'. reflexivity.
  - intro Hnn. apply Hread.
    destruct e; simpl in *; try discriminate; try reflexivity.
    destruct (lookup "message" fields); [discriminate|reflexivity].
  - intros body' specs' c st'' Htry' Hc. unfold program.
    rewrite (run_driver_completes host _ _ _ Htry' Hc). simpl.
    pose proof (try_block_init body' specs') as [He _].
    rewrite Htry' in He. simpl in He. rewrite He. reflexivity.
Qed.

(** *** The [console] binding *)





End Driver.

(* ================================================================== *)
(** ** The callback slot and the delivery entry point *)
(* ================================================================== *)

(** Registration overwrites: the handler registered before is gone. *)
Lemma registerCallback_last_wins (h1 h2 : Callback) (st : State) :
  registerCallback h2 (registerCallback h1 st) = registerCallback h2 st.
Proof. reflexivity. Qed.

Section Delivery.

Variable JSON_parse : string -> JsVal + JsVal.
Variable host : list Event -> JsVal -> JsVal -> list (JsVal * JsVal).

Lemma no_register_keeps_callback (s : Script) :
  forall st, no_register s ->
  __callback (snd (exec_script host s st)) = __callback st.
Proof.
  script_induction s;
    intros st Hno; simpl in *; try reflexivity.
  - rewrite IH by exact Hno. reflexivity.
  - contradiction.
  - destruct (await _) as [o|]; simpl; [|reflexivity].
    rewrite IH by apply Hno. reflexivity.
  - rewrite IH by apply Hno. reflexivity.
Qed.

(** One delivery to a function handler, spelled out. *)
Lemma doCallback_function (payload : string) {res : JsVal} (st : State)
      {id : FnId} {body : JsVal -> Script} :
  JSON_parse payload = inl res ->
  __callback st = CbFun id body ->
  __doCallback JSON_parse host payload st
  = (let r := exec_script host (body res) (emit (EvInvoke id res) st) in
     match fst r with
     | CPending => (Pending, snd r)
     | c => (async_result c, resume (snd r))
     end).
Proof.
  intros Hparse Hcb. unfold __doCallback, call_callback, finally_resume.
  rewrite Hparse, Hcb.
  destruct (exec_script host (body res) (emit (EvInvoke id res) st)) as [c st'].
  destruct c; reflexivity.
Qed.

(** C2.  When the payload parses to [res] and the slot holds the
    function [id], the delivery calls that function on [res], lets
    its body run to its end, and then calls [resume], once and as the
    last thing it does; this is so whether the body ends normally
    (the returned promise fulfils) or raises (it rejects with the
    value raised). *)
Theorem delivery_invokes_then_resumes
        (payload : string) (res : JsVal) (st st' : State)
        (id : FnId) (body : JsVal -> Script) (c : Completion) :
  JSON_parse payload = inl res ->
  __callback st = CbFun id body ->
  exec_script host (body res) (emit (EvInvoke id res) st) = (c, st') ->
  c <> CPending ->
  __doCallback JSON_parse host payload st = (async_result c, resume st')
  /\ exists evs,
       trace (resume st') = trace st ++ EvInvoke id res :: evs ++ [EvResume]
       /\ resumes evs = 0
       /\ invocations evs = [].
Proof.
  intros Hparse Hcb Hrun Hc. split.
  - rewrite (doCallback_function payload st Hparse Hcb), Hrun. simpl.
    destruct c; try reflexivity. congruence.
  - pose proof (exec_script_effect host (body res) (emit (EvInvoke id res) st))
      as (_ & _ & _ & [evs [Htr Hexec]]).
    rewrite Hrun in Htr. simpl in Htr.
    exists evs. split; [|split].
    + simpl. rewrite Htr. rewrite <- !app_assoc. reflexivity.
    + apply exec_events_no_resume; exact Hexec.
    + apply exec_events_no_invocation; exact Hexec.
Qed.

(** A handler that stays suspended keeps the delivery suspended: no
    handoff is made. *)
Lemma delivery_suspended (payload : string) (res : JsVal) (st st' : State)
      (id : FnId) (body : JsVal -> Script) :
  JSON_parse payload = inl res ->
  __callback st = CbFun id body ->
  exec_script host (body res) (emit (EvInvoke id res) st) = (CPending, st') ->
  __doCallback JSON_parse host payload st = (Pending, st')
  /\ resumes (trace st') = resumes (trace st).
Proof.
  intros Hparse Hcb Hrun.
  rewrite (doCallback_function payload st Hparse Hcb), Hrun. simpl.
  split; [reflexivity|].
  pose proof (exec_script_effect host (body res) (emit (EvInvoke id res) st))
    as (_ & _ & _ & [evs [Htr Hexec]]).
  rewrite Hrun in Htr. simpl in Htr.
  rewrite Htr, !resumes_app, (exec_events_no_resume evs Hexec). simpl. lia.
Qed.

(** When the slot holds something that is not a function, the call
    itself raises inside the guarded block: the handoff is made and
    the error is propagated. *)
Lemma delivery_to_non_function (payload : string) (res v : JsVal) (st : State) :
  JSON_parse payload = inl res ->
  __callback st = CbVal v ->
  __doCallback JSON_parse host payload st
  = (Rejected (TypeError "__callback is not a function"), resume st).
Proof.
  intros Hparse Hcb. unfold __doCallback, call_callback, finally_resume.
  rewrite Hparse, Hcb. reflexivity.
Qed.

(** C3, as amended.  When the payload does not parse, the delivery
    calls no handler and makes no handoff: it changes nothing, and
    the promise it returns rejects with the error raised by
    [JSON.parse]. *)
Theorem malformed_payload_rejects_without_handoff
        (payload : string) (err : JsVal) (st : State) :
  JSON_parse payload = inr err ->
  __doCallback JSON_parse host payload st = (Rejected err, st)
  /\ exists evs,
       trace (snd (__doCallback JSON_parse host payload st)) = trace st ++ evs
       /\ invocations evs = []
       /\ resumes evs = 0.
Proof.
  intro Hparse. unfold __doCallback. rewrite Hparse. split; [reflexivity|].
  exists []. simpl. rewrite app_nil_r. repeat split.
Qed.

(** What one delivery adds to the trace when the slot holds a
    function. *)
Lemma doCallback_invocations (payload : string) (st : State)
      {id : FnId} {body : JsVal -> Script} :
  __callback st = CbFun id body ->
  exists evs,
    trace (snd (__doCallback JSON_parse host payload st)) = trace st ++ evs
    /\ invocations evs
       = match JSON_parse payload with
         | inl res => [(id, res)]
         | inr _ => []
         end.
Proof.
  intro Hcb. destruct (JSON_parse payload) as [res|err] eqn:Hparse.
  - rewrite (doCallback_function payload st Hparse Hcb).
    pose proof (exec_script_effect host (body res) (emit (EvInvoke id res) st))
      as (_ & _ & _ & [evs [Htr Hexec]]).
    destruct (exec_script host (body res) (emit (EvInvoke id res) st)) as [c st'].
    simpl in Htr.
    pose proof (exec_events_no_invocation evs Hexec) as Hinv.
    destruct c; simpl.
    + exists (EvInvoke id res :: evs ++ [EvResume]). split.
      * rewrite Htr, <- !app_assoc. reflexivity.
      * simpl. rewrite invocations_app, Hinv. reflexivity.
    + exists (EvInvoke id res :: evs ++ [EvResume]). split.
      * rewrite Htr, <- !app_assoc. reflexivity.
      * simpl. rewrite invocations_app, Hinv. reflexivity.
    + exists (EvInvoke id res :: evs ++ [EvResume]). split.
      * rewrite Htr, <- !app_assoc. reflexivity.
      * simpl. rewrite invocations_app, Hinv. reflexivity.
    + exists (EvInvoke id res :: evs). split.
      * rewrite Htr, <- !app_assoc. reflexivity.
      * simpl. rewrite Hinv. reflexivity.
  - unfold __doCallback. rewrite Hparse. exists []. simpl.
    rewrite app_nil_r. split; reflexivity.
Qed.

Lemma doCallback_keeps_callback (payload : string) (st : State)
      {id : FnId} {body : JsVal -> Script} :
  __callback st = CbFun id body ->
  (forall res, no_register (body res)) ->
  __callback (snd (__doCallback JSON_parse host payload st)) = CbFun id body.
Proof.
  intros Hcb Hno. destruct (JSON_parse payload) as [res|err] eqn:Hparse.
  - rewrite (doCallback_function payload st Hparse Hcb).
    pose proof (no_register_keeps_callback (body res)
                  (emit (EvInvoke id res) st) (Hno res)) as Hkeep.
    destruct (exec_script host (body res) (emit (EvInvoke id res) st)) as [c st'].
    simpl in Hkeep. destruct c; simpl; rewrite Hkeep; exact Hcb.
  - unfold __doCallback. rewrite Hparse. exact Hcb.
Qed.

Lemma deliver_all_cons (p : string) (payloads : list string) (st : State) :
  deliver_all JSON_parse host (p :: payloads) st
  = deliver_all JSON_parse host payloads
      (snd (__doCallback JSON_parse host p st)).
Proof. reflexivity. Qed.

Lemma deliver_all_invocations (payloads : list string) :
  forall (st : State) (id : FnId) (body : JsVal -> Script),
  __callback st = CbFun id body ->
  (forall res, no_register (body res)) ->
  __callback (deliver_all JSON_parse host payloads st) = CbFun id body
  /\ exists evs,
       trace (deliver_all JSON_parse host payloads st) = trace st ++ evs
       /\ invocations evs = map (fun res => (id, res)) (parsed JSON_parse payloads).
Proof.
  induction payloads as [|p payloads IH]; intros st id body Hcb Hno.
  - simpl. split; [exact Hcb|]. exists []. rewrite app_nil_r. split; reflexivity.
  - rewrite deliver_all_cons.
    pose proof (doCallback_keeps_callback p st Hcb Hno) as Hcb1.
    destruct (doCallback_invocations p st Hcb) as [evs1 [Htr1 Hinv1]].
    destruct (IH _ id body Hcb1 Hno) as [Hcb2 [evs2 [Htr2 Hinv2]]].
    split; [exact Hcb2|].
    exists (evs1 ++ evs2). split.
    + rewrite Htr2, Htr1, app_assoc. reflexivity.
    + rewrite invocations_app, Hinv1, Hinv2. simpl.
      destruct (JSON_parse p); reflexivity.
Qed.

(** C6.  When [h1] and then [h2] have been registered, and [h2] does
    not itself register anything, then every delivery that follows
    calls [h2], once for each payload that parses and on the value
    parsed, and none calls [h1]; the slot never holds more than the
    one handler registered last. *)
Theorem second_registration_wins
        (id1 id2 : FnId) (body1 body2 : JsVal -> Script)
        (st : State) (payloads : list string) :
  (forall res, no_register (body2 res)) ->
  let st2 := registerCallback (CbFun id2 body2)
               (registerCallback (CbFun id1 body1) st) in
  __callback st2 = CbFun id2 body2
  /\ __callback (deliver_all JSON_parse host payloads st2) = CbFun id2 body2
  /\ exists evs,
       trace (deliver_all JSON_parse host payloads st2) = trace st ++ evs
       /\ invocations evs = map (fun res => (id2, res)) (parsed JSON_parse payloads)
       /\ (id1 <> id2 -> forall arg, ~ In (id1, arg) (invocations evs)).
Proof.
  intros Hno st2.
  assert (Hcb : __callback st2 = CbFun id2 body2) by reflexivity.
  destruct (deliver_all_invocations payloads st2 id2 body2 Hcb Hno) as [Hkeep [evs [Htr Hinv]]].
  split; [exact Hcb|]. split; [exact Hkeep|].
  exists evs. split; [exact Htr|]. split; [exact Hinv|].
  intros Hneq arg Hin. rewrite Hinv in Hin.
  apply in_map_iff in Hin. destruct Hin as [res [Heq _]].
  inversion Heq. congruence.
Qed.

End Delivery.

(* ================================================================== *)
(** ** The statements at concrete runs *)
(* ================================================================== *)

(** The run of [log("a"); await exec(1, "env1"); log("b");] against
    a host that answers with a status of 200. *)
Example log_exec_log_run :
  program host_ok log_exec_log SDone
  = (Fulfilled JUndefined,
     {| __internalLogs := [{| time := 10; message := "a" |};
                           {| time := 20; message := "b" |}];
        __internalError := JNull;
        console := JNull;
        __callback := noop;
        trace := [EvExec (JNum 1) (JStr "env1"); EvResume] |}).
Proof. reflexivity. Qed.

(** The same script against a host that never answers: the run stays
    suspended after the first entry and no handoff is made. *)
Example log_exec_log_suspended :
  program host_silent log_exec_log SDone
  = (Pending,
     {| __internalLogs := [{| time := 10; message := "a" |}];
        __internalError := JNull;
        console := JNull;
        __callback := noop;
        trace := [EvExec (JNum 1) (JStr "env1")] |}).
Proof. reflexivity. Qed.

(** The same script against a host that reports a failure: the
    rejection value is a string, so what the slot receives is its
    [message], which is [undefined]. *)
Example log_exec_log_failed :
  snd (program host_fails log_exec_log SDone)
  = {| __internalLogs := [{| time := 10; message := "a" |}];
       __internalError := JUndefined;
       console := JNull;
       __callback := noop;
       trace := [EvExec (JNum 1) (JStr "env1"); EvResume] |}.
Proof. reflexivity. Qed.

(** Escapes in a serialized message: a line feed, a quote and a
    backslash. *)
Example quote_escapes :
  QuoteJSONString (String (ascii_of_nat 10) (String dquote (String backslash "a")))
  = String dquote
      (String backslash
         (String "n"
            (String backslash
               (String dquote
                  (String backslash (String backslash (String "a" (String dquote ""))))))))
  /\ quote_char (ascii_of_nat 31) = String backslash "u001f".
Proof. split; reflexivity. Qed.

(** A host failure reaches the script as the rejection value; a host
    result as the fulfilment value. *)
Lemma exec_settles_as_delivered_witness :
  (host_fails (trace init) (JNum 1) (JStr "env1")
   = [(JUndefined, JStr "connection refused")]
   /\ truthy (JStr "connection refused") = true
   /\ fst (exec host_fails (JNum 1) (JStr "env1") init)
      = Rejected (JStr "connection refused"))
  /\ (host_ok (trace init) (JNum 1) (JStr "env1")
      = [(JObj [("status", JNum 200)], JNull)]
      /\ truthy JNull = false
      /\ fst (exec host_ok (JNum 1) (JStr "env1") init)
         = Fulfilled (JObj [("status", JNum 200)])).
Proof.
  split.
  - split; [reflexivity|]. split; [reflexivity|].
    exact (proj1 (exec_settles_as_delivered host_fails (JNum 1) (JStr "env1") init
                    JUndefined (JStr "connection refused") [] eq_refl) eq_refl).
  - split; [reflexivity|]. split; [reflexivity|].
    exact (proj2 (exec_settles_as_delivered host_ok (JNum 1) (JStr "env1") init
                    (JObj [("status", JNum 200)]) JNull [] eq_refl) eq_refl).
Defined.

(** A host that reports its failure as the empty string. *)
Lemma exec_falsy_failure_fulfils_witness :
  (fun (_ : list Event) (_ _ : JsVal) => [(JStr "partial", JStr "")])
    (trace init) (JNum 7) (JStr "env1") = [(JStr "partial", JStr "")]
  /\ In (JStr "") [JNull; JUndefined; JNum 0; JStr ""; JBool false; JNaN]
  /\ fst (exec (fun _ _ _ => [(JStr "partial", JStr "")])
               (JNum 7) (JStr "env1") init)
     = Fulfilled (JStr "partial").
Proof.
  split; [reflexivity|].
  assert (Hin : In (JStr "") [JNull; JUndefined; JNum 0; JStr ""; JBool false; JNaN]).
  { simpl. right. right. right. left. reflexivity. }
  split; [exact Hin|].
  exact (proj2 (exec_falsy_failure_fulfils
                  (fun _ _ _ => [(JStr "partial", JStr "")])
                  (JNum 7) (JStr "env1") init (JStr "partial") (JStr "") []
                  eq_refl) Hin).
Defined.


(** [throw "oops";] *)
Lemma message_less_failure_reads_as_success_witness :
  try_block host_ok (SThrow (JStr "oops")) SDone init = (CThrow (JStr "oops"), init)
  /\ has_message (JStr "oops") = false
  /\ is_nullish (__internalError (snd (program host_ok (SThrow (JStr "oops")) SDone)))
     = true
  /\ is_nullish (__internalError (snd (program host_ok SDone SDone))) = true.
Proof.
  split; [reflexivity|]. split; [reflexivity|].
  pose proof (proj2 (message_less_failure_reads_as_success host_ok
                       (SThrow (JStr "oops")) SDone (JStr "oops") init eq_refl)
                    eq_refl) as [Hfail [_ Hok]].
  split; [exact Hfail|].
  exact (Hok SDone SDone CNormal init eq_refl (or_introl eq_refl)).
Defined.



(** A delivery of [42] to a handler that logs its argument. *)
Lemma delivery_invokes_then_resumes_witness :
  parse_literal "42" = inl (JNum 42)
  /\ __callback one_handler = CbFun 2 (log_handler 9)
  /\ exec_script host_ok (log_handler 9 (JNum 42))
       (emit (EvInvoke 2 (JNum 42)) one_handler)
     = (CNormal, log 9 [JNum 42] (emit (EvInvoke 2 (JNum 42)) one_handler))
  /\ CNormal <> CPending
  /\ __doCallback parse_literal host_ok "42" one_handler
     = (Fulfilled JUndefined,
        resume (log 9 [JNum 42] (emit (EvInvoke 2 (JNum 42)) one_handler)))
  /\ exists evs,
       trace (resume (log 9 [JNum 42] (emit (EvInvoke 2 (JNum 42)) one_handler)))
       = trace one_handler ++ EvInvoke 2 (JNum 42) :: evs ++ [EvResume]
       /\ resumes evs = 0
       /\ invocations evs = [].
Proof.
  assert (Hc : CNormal <> CPending) by discriminate.
  split; [reflexivity|]. split; [reflexivity|]. split; [reflexivity|].
  split; [exact Hc|].
  exact (delivery_invokes_then_resumes parse_literal host_ok "42" (JNum 42)
           one_handler (log 9 [JNum 42] (emit (EvInvoke 2 (JNum 42)) one_handler))
           2 (log_handler 9) CNormal eq_refl eq_refl eq_refl Hc).
Defined.

(** A delivery of the text [{]. *)
Lemma malformed_payload_rejects_without_handoff_witness :
  parse_literal "{" = inr (SyntaxError "Unexpected token in JSON")
  /\ __doCallback parse_literal host_ok "{" one_handler
     = (Rejected (SyntaxError "Unexpected token in JSON"), one_handler).
Proof.
  split; [reflexivity|].
  exact (proj1 (malformed_payload_rejects_without_handoff parse_literal host_ok "{"
                  (SyntaxError "Unexpected token in JSON") one_handler eq_refl)).
Defined.

(** C3 as stated fails at the payload [{]: no handoff results from
    the call. *)
Lemma malformed_payload_makes_no_handoff :
  (exists err, parse_literal "{" = inr err)
  /\ resumes (trace (snd (__doCallback parse_literal host_ok "{" one_handler))) <> 1.
Proof.
  split.
  - eexists. reflexivity.
  - simpl. discriminate.
Qed.

(** Two registrations, then the payloads [1], [{] and [2]. *)
Lemma second_registration_wins_witness :
  (forall res, no_register (log_handler 9 res))
  /\ 1 <> 2
  /\ exists evs,
       trace (deliver_all parse_literal host_ok ["1"; "{"; "2"]%string two_handlers)
       = trace init ++ evs
       /\ invocations evs = [(2, JNum 1); (2, JNum 2)]
       /\ forall arg, ~ In (1, arg) (invocations evs).
Proof.
  assert (Hno : forall res, no_register (log_handler 9 res)) by (intro; exact I).
  assert (Hneq : 1 <> 2) by discriminate.
  split; [exact Hno|]. split; [exact Hneq|].
  destruct (second_registration_wins parse_literal host_ok 1 2 throwing_handler
              (log_handler 9) init ["1"; "{"; "2"]%string Hno)
    as [_ [_ [evs [Htr [Hinv Hnot]]]]].
  exists evs. split; [exact Htr|]. split; [exact Hinv|].
  exact (Hnot Hneq).
Defined.

(* ================================================================== *)
(** ** More on the run driver and the delivery entry point *)
(* ================================================================== *)

Section DriverFacts.

Variable host : list Event -> JsVal -> JsVal -> list (JsVal * JsVal).

Lemma completion_pending_dec (c : Completion) : {c = CPending} + {c <> CPending}.
Proof. destruct c; (left; reflexivity) || (right; discriminate). Qed.

(** X1.  Whatever the script body and the specs do, the driver calls
    [resume] at most once and only as its last act: when its promise
    settles the trace ends with the one handoff of the run, and while
    the promise is pending no handoff has been made. *)
Theorem driver_hands_off_once_or_never (body specs : Script) (st : State) :
  exists evs,
    resumes evs = 0
    /\ ((fst (run_driver host body specs st) = Pending
         /\ trace (snd (run_driver host body specs st)) = trace st ++ evs)
        \/ (fst (run_driver host body specs st) <> Pending
            /\ trace (snd (run_driver host body specs st))
               = trace st ++ evs ++ [EvResume])).
Proof.
  destruct (completion_pending_dec (fst (try_block host body specs st))) as [Hp|Hp].
  - destruct (run_driver_suspended_no_resume host body specs st Hp)
      as [Hfst [evs [Htr Hres]]].
    exists evs. split; [exact Hres|]. left. split; assumption.
  - destruct (run_driver_resumes_once host body specs st Hp)
      as [Hfst [evs [Htr Hres]]].
    exists evs. split; [exact Hres|]. right. split; assumption.
Qed.

(** X2.  When the [try] block ends by throwing [e]: if [e] is neither
    [null] nor [undefined], the driver stores [e.message] in the error
    slot and its promise fulfils; if [e] is [null] or [undefined], the
    error slot is left as it was and the promise rejects.  Either way
    the handoff is made and nothing else changes. *)
Theorem driver_contains_all_but_nullish_throws
        (body specs : Script) (st st' : State) (e : JsVal) :
  try_block host body specs st = (CThrow e, st') ->
  (is_nullish e = false ->
     exists m, get_message e = inl m
               /\ run_driver host body specs st
                  = (Fulfilled JUndefined, resume (set_internalError m st')))
  /\ (is_nullish e = true ->
        exists err, run_driver host body specs st = (Rejected err, resume st')).
Proof.
  intro Htry. split; intro Hn.
  - destruct (get_message e) as [m|err] eqn:Hm.
    + exists m. split; [reflexivity|].
      exact (run_driver_captures host body specs st Htry Hm).
    + destruct e; simpl in Hn, Hm; try discriminate.
      destruct (lookup "message" fields); discriminate.
  - destruct (get_message e) as [m|err] eqn:Hm.
    + destruct e; simpl in Hn, Hm; discriminate.
    + exists err. exact (run_driver_catch_raises host body specs st Htry Hm).
Qed.

(** X3.  A script body that does not end normally (it returns,
    throws, or stays suspended) keeps the spec run from starting: the
    outcome of the run does not depend on the specs. *)
Theorem early_exit_skips_specs (body specs specs' : Script) (st : State) :
  fst (exec_script host body st) <> CNormal ->
  run_driver host body specs st = run_driver host body specs' st.
Proof.
  intro Hc. unfold run_driver, try_catch, try_block.
  destruct (exec_script host body st) as [c st1]. simpl in Hc.
  destruct c; [congruence| | |]; reflexivity.
Qed.

(** X4.  A run never removes or rewrites an entry that is already in
    the log buffer, never rebinds [console], and writes the error slot
    only when the [try] block throws. *)
Theorem run_keeps_buffer_and_slot (body specs : Script) (st : State) :
  (exists entries,
     __internalLogs (snd (run_driver host body specs st))
     = __internalLogs st ++ entries)
  /\ console (snd (run_driver host body specs st)) = console st
  /\ ((forall e, fst (try_block host body specs st) <> CThrow e) ->
      __internalError (snd (run_driver host body specs st)) = __internalError st).
Proof.
  pose proof (try_block_effect host body specs st) as (He & Hc & [entries Hl] & _).
  unfold run_driver, try_catch.
  destruct (try_block host body specs st) as [c st1]; simpl in *.
  destruct c as [ | | e | ]; simpl.
  - split; [exists entries; exact Hl|]. split; [exact Hc|]. intros _. exact He.
  - split; [exists entries; exact Hl|]. split; [exact Hc|]. intros _. exact He.
  - unfold catch_block. destruct (get_message e) as [m|err]; simpl.
    + split; [exists entries; exact Hl|]. split; [exact Hc|].
      intro Hno. exfalso. apply (Hno e). reflexivity.
    + split; [exists entries; exact Hl|]. split; [exact Hc|]. intros _. exact He.
  - split; [exists entries; exact Hl|]. split; [exact Hc|]. intros _. exact He.
Qed.

End DriverFacts.

Section DeliveryFacts.

Variable JSON_parse : string -> JsVal + JsVal.
Variable host : list Event -> JsVal -> JsVal -> list (JsVal * JsVal).

(** X5.  A delivery never writes the error slot, whatever the payload
    and the handler: a handler failure shows only as the rejection of
    the promise the delivery returns.  Nor does a delivery rebind
    [console] or drop a log entry. *)
Theorem delivery_leaves_error_slot (payload : string) (st : State) :
  __internalError (snd (__doCallback JSON_parse host payload st))
  = __internalError st
  /\ console (snd (__doCallback JSON_parse host payload st)) = console st
  /\ exists entries,
       __internalLogs (snd (__doCallback JSON_parse host payload st))
       = __internalLogs st ++ entries.
Proof.
  unfold __doCallback, call_callback, finally_resume.
  destruct (JSON_parse payload) as [res|err]; simpl.
  2:{ repeat split. exists []. rewrite app_nil_r. reflexivity. }
  destruct (__callback st) as [id body|v]; simpl.
  2:{ repeat split. exists []. rewrite app_nil_r. reflexivity. }
  pose proof (exec_script_effect host (body res) (emit (EvInvoke id res) st))
    as (He & Hc & [entries Hl] & _).
  destruct (exec_script host (body res) (emit (EvInvoke id res) st)) as [c st'].
  simpl in *.
  destruct c; simpl; (split; [exact He|]; split; [exact Hc|]; exists entries; exact Hl).
Qed.

Lemma doCallback_resumes (payload : string) (st : State)
      {id : FnId} {body : JsVal -> Script} :
  __callback st = CbFun id body ->
  (forall res st', fst (exec_script host (body res) st') <> CPending) ->
  exists evs,
    trace (snd (__doCallback JSON_parse host payload st)) = trace st ++ evs
    /\ resumes evs = match JSON_parse payload with inl _ => 1 | inr _ => 0 end.
Proof.
  intros Hcb Hdone. destruct (JSON_parse payload) as [res|err] eqn:Hparse.
  - rewrite (doCallback_function JSON_parse host payload st Hparse Hcb).
    pose proof (exec_script_effect host (body res) (emit (EvInvoke id res) st))
      as (_ & _ & _ & [evs [Htr Hexec]]).
    specialize (Hdone res (emit (EvInvoke id res) st)).
    destruct (exec_script host (body res) (emit (EvInvoke id res) st)) as [c st'].
    simpl in Htr, Hdone.
    pose proof (exec_events_no_resume evs Hexec) as Hres.
    exists (EvInvoke id res :: evs ++ [EvResume]). split.
    + destruct c; simpl; try congruence;
        rewrite Htr, <- !app_assoc; reflexivity.
    + simpl. rewrite resumes_app, Hres. reflexivity.
  - unfold __doCallback. rewrite Hparse. exists []. simpl.
    rewrite app_nil_r. split; reflexivity.
Qed.

(** X6.  With a function in the slot that registers nothing and whose
    runs always come to an end, a series of deliveries makes exactly
    one handoff for each payload that parses, and none for a payload
    that does not. *)
Theorem one_handoff_per_parsed_payload (payloads : list string) :
  forall (st : State) (id : FnId) (body : JsVal -> Script),
  __callback st = CbFun id body ->
  (forall res, no_register (body res)) ->
  (forall res st', fst (exec_script host (body res) st') <> CPending) ->
  exists evs,
    trace (deliver_all JSON_parse host payloads st) = trace st ++ evs
    /\ resumes evs = List.length (parsed JSON_parse payloads).
Proof.
  induction payloads as [|p payloads IH]; intros st id body Hcb Hno Hdone.
  - exists []. simpl. rewrite app_nil_r. split; reflexivity.
  - rewrite deliver_all_cons.
    pose proof (doCallback_keeps_callback JSON_parse host p st Hcb Hno) as Hcb1.
    destruct (doCallback_resumes p st Hcb Hdone) as [evs1 [Htr1 Hres1]].
    destruct (IH _ id body Hcb1 Hno Hdone) as [evs2 [Htr2 Hres2]].
    exists (evs1 ++ evs2). split.
    + rewrite Htr2, Htr1, app_assoc. reflexivity.
    + rewrite resumes_app, Hres1, Hres2. simpl.
      destruct (JSON_parse p); reflexivity.
Qed.

End DeliveryFacts.

(* ================================================================== *)
(** ** A log document determines the buffer *)
(* ================================================================== *)

Section ReadBack.

Import LogReader.

Lemma expect_app (lit s : string) : expect lit (lit ++ s)%string = Some s.
Proof.
  induction lit as [|c lit IH]; simpl; [reflexivity|].
  rewrite Ascii.eqb_refl. exact IH.
Qed.

Lemma string_length_app (a b : string) :
  String.length (a ++ b)%string = String.length a + String.length b.
Proof. induction a as [|c a IH]; simpl; [reflexivity|]. rewrite IH. reflexivity. Qed.

(** *** Numbers *)

Lemma uint_number_chars (d : Decimal.uint) (c : ascii) :
  In c (list_ascii_of_string (NilEmpty.string_of_uint d)) ->
  is_number_char c = true.
Proof.
  induction d; simpl; intro H; try contradiction;
    (destruct H as [<- | H]; [reflexivity | apply IHd; exact H]).
Qed.

Lemma Z_to_string_number_chars (n : Z) (c : ascii) :
  In c (list_ascii_of_string (Z_to_string n)) -> is_number_char c = true.
Proof.
  unfold Z_to_string, NilZero.string_of_int, NilZero.string_of_uint.
  destruct (Z.to_int n) as [d|d].
  - destruct d; simpl; intro H;
      try (destruct H as [<- | H]; [reflexivity|]);
      try contradiction; try (revert H; apply uint_number_chars).
  - simpl. intros [<- | H]; [reflexivity|].
    destruct d; simpl in H;
      try (destruct H as [<- | H]; [reflexivity|]);
      try contradiction; try (revert H; apply uint_number_chars).
Qed.

Lemma span_number_app (num : string) (c : ascii) (rest : string) :
  (forall x, In x (list_ascii_of_string num) -> is_number_char x = true) ->
  is_number_char c = false ->
  span_number (num ++ String c rest)%string = (num, String c rest).
Proof.
  intros Hnum Hc. induction num as [|x num IH]; simpl.
  - rewrite Hc. reflexivity.
  - rewrite (Hnum x) by (simpl; left; reflexivity).
    rewrite IH; [reflexivity|].
    intros y Hy. apply Hnum. simpl. right. exact Hy.
Qed.

Lemma int_of_Z_to_string (n : Z) :
  NilZero.int_of_string (Z_to_string n) = Some (Z.to_int n).
Proof.
  unfold Z_to_string. apply NilZero.isi.
  - destruct n; simpl; try discriminate.
    intro H. inversion H as [H']. exact (DecimalPos.Unsigned.to_uint_nonnil _ H').
  - destruct n; simpl; try discriminate.
    intro H. inversion H as [H']. exact (DecimalPos.Unsigned.to_uint_nonnil _ H').
Qed.

Lemma read_number_app (n : Z) (c : ascii) (rest : string) :
  is_number_char c = false ->
  read_number (Z_to_string n ++ String c rest)%string = Some (n, String c rest).
Proof.
  intro Hc. unfold read_number.
  rewrite (span_number_app (Z_to_string n) c rest (Z_to_string_number_chars n) Hc).
  rewrite int_of_Z_to_string, DecimalZ.of_to. reflexivity.
Qed.

(** *** Quoted strings *)

Lemma read_quoted_char (c : ascii) (tail : string) :
  read_quoted (quote_char c ++ tail)%string
  = match read_quoted tail with
    | Some (text, after) => Some (String c text, after)
    | None => None
    end.
Proof.
  destruct c as [[|] [|] [|] [|] [|] [|] [|] [|]]; reflexivity.
Qed.

Lemma read_quoted_body (m rest : string) :
  read_quoted (quote_body m ++ String dquote rest)%string = Some (m, rest).
Proof.
  induction m as [|c m IH]; simpl.
  - reflexivity.
  - rewrite string_app_assoc, read_quoted_char, IH. reflexivity.
Qed.

(** *** Entries *)

Lemma expect_message_key (tail : string) :
  expect ("," ++ QuoteJSONString "message" ++ ":" ++ String dquote "")%string
         (String "," ((QuoteJSONString "message" ++ ":" ++ String dquote "") ++ tail))%string
  = Some tail.
Proof.
  exact (expect_app ("," ++ QuoteJSONString "message" ++ ":" ++ String dquote "")%string tail).
Qed.

Lemma entry_document_shape (t : Z) (m rest : string) :
  (entry_document {| time := t; message := m |} ++ rest)%string
  = (("{" ++ QuoteJSONString "time" ++ ":")
       ++ (Z_to_string t
             ++ String ","
                  ((QuoteJSONString "message" ++ ":" ++ String dquote "")
                     ++ (quote_body m ++ String dquote (String "}" rest)))))%string.
Proof.
  unfold entry_document, QuoteJSONString. cbn [time message].
  repeat (rewrite string_app_assoc; cbn [append]).
  cbn [append quote_body quote_char nat_of_ascii]. 
  repeat (rewrite string_app_assoc; cbn [append]).
  reflexivity.
Qed.

Lemma read_entry_app (e : LogEntry) (rest : string) :
  read_entry (entry_document e ++ rest)%string = Some (e, rest).
Proof.
  destruct e as [t m]. rewrite entry_document_shape. unfold read_entry.
  rewrite expect_app.
  rewrite read_number_app by reflexivity.
  rewrite expect_message_key.
  rewrite read_quoted_body.
  reflexivity.
Qed.

Lemma entry_document_not_empty (e : LogEntry) :
  1 <= String.length (entry_document e).
Proof. unfold entry_document. simpl. lia. Qed.

Lemma concat_length_lower (sep : string) (ls : list string) :
  (forall x, In x ls -> 1 <= String.length x) ->
  List.length ls <= String.length (String.concat sep ls).
Proof.
  induction ls as [|x ls IH]; intro Hall; [simpl; lia|].
  assert (Hx : 1 <= String.length x) by (apply Hall; left; reflexivity).
  assert (IH' : List.length ls <= String.length (String.concat sep ls)).
  { apply IH. intros y Hy. apply Hall. right. exact Hy. }
  destruct ls as [|y ls]; [simpl; lia|].
  change (String.concat sep (x :: y :: ls))
    with (x ++ sep ++ String.concat sep (y :: ls))%string.
  rewrite !string_length_app. simpl List.length in *. lia.
Qed.

Lemma read_entries_concat (l : list LogEntry) :
  forall fuel, l <> [] -> List.length l <= fuel ->
  read_entries fuel (String.concat "," (map entry_document l) ++ "]")%string = Some l.
Proof.
  induction l as [|e l IH]; intros fuel Hne Hfuel; [congruence|].
  destruct fuel as [|fuel]; [simpl in Hfuel; lia|].
  destruct l as [|e' l].
  - change (String.concat "," (map entry_document [e])) with (entry_document e).
    cbn [read_entries]. rewrite read_entry_app. reflexivity.
  - change (String.concat "," (map entry_document (e :: e' :: l)))
      with (entry_document e ++ "," ++ String.concat "," (map entry_document (e' :: l)))%string.
    rewrite !string_app_assoc.
    cbn [read_entries]. rewrite read_entry_app.
    assert (Hrest : ("," ++ (String.concat "," (map entry_document (e' :: l)) ++ "]"))%string
                    = String "," (String.concat "," (map entry_document (e' :: l)) ++ "]")%string)
      by reflexivity.
    rewrite Hrest.
    assert (Hnot : (String "," (String.concat "," (map entry_document (e' :: l)) ++ "]")%string
                    =? "]")%string = false) by reflexivity.
    rewrite Hnot. cbn [expect]. rewrite Ascii.eqb_refl.
    rewrite IH; [reflexivity | discriminate | simpl in *; lia].
Qed.

Lemma read_log_document_written (l : list LogEntry) :
  read_log_document (log_document l) = Some l.
Proof.
  destruct l as [|e l]; [reflexivity|].
  unfold read_log_document.
  assert (Hneq : (log_document (e :: l) =? "[]")%string = false).
  { unfold log_document. destruct l; reflexivity. }
  rewrite Hneq. unfold log_document at 1.
  change ("[" ++ String.concat "," (map entry_document (e :: l)) ++ "]")%string
    with ("[" ++ (String.concat "," (map entry_document (e :: l)) ++ "]"))%string.
  rewrite expect_app.
  apply read_entries_concat; [discriminate|].
  unfold log_document. rewrite !string_length_app.
  assert (Hlen : List.length (map entry_document (e :: l))
                 <= String.length (String.concat "," (map entry_document (e :: l)))).
  { apply concat_length_lower. intros x Hx. apply in_map_iff in Hx.
    destruct Hx as [e' [<- _]]. apply entry_document_not_empty. }
  rewrite length_map in Hlen. lia.
Qed.

Lemma log_document_injective (l1 l2 : list LogEntry) :
  log_document l1 = log_document l2 -> l1 = l2.
Proof.
  intro H.
  pose proof (read_log_document_written l1) as H1.
  rewrite H, read_log_document_written in H1. congruence.
Qed.

End ReadBack.

(** X7.  The document returned by [__getInternalLogs] determines the
    buffer: two states that serialize to the same value hold the same
    entries, with the same times and messages, in the same order. *)
Theorem getInternalLogs_determines_buffer (st1 st2 : State) :
  fst (__getInternalLogs st1) = fst (__getInternalLogs st2) ->
  __internalLogs st1 = __internalLogs st2.
Proof.
  rewrite !getInternalLogs_value. intro H.
  apply log_document_injective. congruence.
Qed.

(* ================================================================== *)
(** ** Client utilities: split, join and the group lists *)
(* ================================================================== *)

Import Utils.

Lemma includes_char_cons (x c : ascii) (s : string) :
  includes (String x s) (String c "") = (Ascii.eqb x c || includes s (String c ""))%bool.
Proof.
  cbn [includes String.prefix].
  destruct (ascii_dec c x) as [->|Hneq].
  - rewrite Ascii.eqb_refl. destruct s; reflexivity.
  - assert (Hf : Ascii.eqb x c = false)
      by (apply Ascii.eqb_neq; intro H; apply Hneq; symmetry; exact H).
    rewrite Hf. reflexivity.
Qed.

Lemma includes_char_nil (c : ascii) : includes "" (String c "") = false.
Proof. reflexivity. Qed.

Lemma includes_char_app (a b : string) (c : ascii) :
  includes (a ++ b)%string (String c "")
  = (includes a (String c "") || includes b (String c ""))%bool.
Proof.
  induction a as [|x a IH].
  - reflexivity.
  - change (String x a ++ b)%string with (String x (a ++ b)%string).
    rewrite !includes_char_cons, IH, orb_assoc. reflexivity.
Qed.

Lemma split_not_nil (s : string) (c : ascii) : split s c <> [].
Proof.
  induction s as [|x s IH]; simpl; [discriminate|].
  destruct (Ascii.eqb x c); [discriminate|].
  destruct (split s c); [congruence|discriminate].
Qed.

(** A string without the separator is a single piece. *)
Lemma split_without_separator (s : string) (c : ascii) :
  includes s (String c "") = false -> split s c = [s].
Proof.
  induction s as [|x s IH]; intro H; [reflexivity|].
  rewrite includes_char_cons in H. apply orb_false_iff in H as [Hx Hs].
  simpl. rewrite Hx, (IH Hs). reflexivity.
Qed.

(** The first separator ends the first piece. *)
Lemma split_at_separator (a b : string) (c : ascii) :
  includes a (String c "") = false ->
  split (a ++ String c b)%string c = a :: split b c.
Proof.
  induction a as [|x a IH]; intro H.
  - simpl. rewrite Ascii.eqb_refl. reflexivity.
  - rewrite includes_char_cons in H. apply orb_false_iff in H as [Hx Ha].
    change (String x a ++ String c b)%string with (String x (a ++ String c b)%string).
    cbn [split]. rewrite Hx, (IH Ha). reflexivity.
Qed.

(** No piece contains the separator. *)
Lemma split_pieces_clean (s : string) (c : ascii) :
  Forall (fun piece => includes piece (String c "") = false) (split s c).
Proof.
  induction s as [|x s IH]; simpl.
  - constructor; [reflexivity|constructor].
  - destruct (Ascii.eqb x c) eqn:Hx.
    + constructor; [reflexivity|exact IH].
    + destruct (split s c) as [|piece pieces]; inversion IH; subst.
      * constructor; [|constructor].
        rewrite includes_char_cons, Hx. reflexivity.
      * constructor; [|assumption].
        rewrite includes_char_cons, Hx. assumption.
Qed.

(** Joining the pieces with the separator gives the string back. *)
Lemma join_split (s : string) (c : ascii) : join (split s c) (String c "") = s.
Proof.
  unfold join. induction s as [|x s IH]; [reflexivity|].
  cbn [split]. destruct (Ascii.eqb x c) eqn:Hx.
  - apply Ascii.eqb_eq in Hx. subst x.
    pose proof (split_not_nil s c) as Hne.
    destruct (split s c) as [|p ps]; [congruence|].
    change (String.concat (String c "") ("" :: p :: ps))
      with (String c "" ++ String.concat (String c "") (p :: ps))%string.
    rewrite IH. reflexivity.
  - pose proof (split_not_nil s c) as Hne.
    destruct (split s c) as [|p ps]; [congruence|].
    destruct ps as [|q ps].
    + simpl in *. rewrite IH. reflexivity.
    + change (String.concat (String c "") (String x p :: q :: ps))
        with (String x (p ++ String c "" ++ String.concat (String c "") (q :: ps))%string).
      change (String.concat (String c "") (p :: q :: ps))
        with (p ++ String c "" ++ String.concat (String c "") (q :: ps))%string in IH.
      rewrite IH. reflexivity.
Qed.

(** Splitting a join of clean pieces gives the pieces back. *)
Lemma split_join (l : list string) (c : ascii) :
  l <> [] ->
  Forall (fun piece => includes piece (String c "") = false) l ->
  split (join l (String c "")) c = l.
Proof.
  unfold join. induction l as [|p l IH]; intros Hne Hclean; [congruence|].
  inversion Hclean as [|? ? Hp Hl]; subst.
  destruct l as [|q l].
  - simpl. apply split_without_separator. exact Hp.
  - change (String.concat (String c "") (p :: q :: l))
      with (p ++ String c (String.concat (String c "") (q :: l)))%string.
    rewrite (split_at_separator _ _ _ Hp), IH; [reflexivity|discriminate|exact Hl].
Qed.

Lemma filter_nonempty_clean (l : list string) :
  Forall (fun g => g <> "") l ->
  filter (fun el => negb (el =? "")%string) l = l.
Proof.
  induction l as [|g l IH]; intro H; [reflexivity|].
  inversion H as [|? ? Hg Hl]; subst. simpl.
  destruct (String.eqb_spec g ""); [contradiction|]. simpl.
  rewrite (IH Hl). reflexivity.
Qed.

(** X8.  Writing a list of groups with [groupsArrayToStr] and reading
    it back with [groupsStrToArray] gives the same list, provided no
    group is empty and none contains a comma. *)
Theorem groups_round_trip (groups : list string) :
  Forall (fun g => g <> "" /\ includes g "," = false) groups ->
  groupsStrToArray (groupsArrayToStr (Some groups)) = groups.
Proof.
  intro H. unfold groupsStrToArray, groupsArrayToStr.
  destruct groups as [|g groups]; [reflexivity|].
  rewrite split_join.
  - apply filter_nonempty_clean. eapply Forall_impl; [|exact H].
    intros a [Ha _]. exact Ha.
  - discriminate.
  - eapply Forall_impl; [|exact H]. intros a [_ Ha]. exact Ha.
Qed.


(** X9.  Whatever string it is given, [groupsStrToArray] returns
    groups that are non-empty and free of commas, so that writing them
    with [groupsArrayToStr] and reading them again changes nothing. *)
Theorem groupsStrToArray_normalises (groups : string) :
  Forall (fun g => g <> "" /\ includes g "," = false) (groupsStrToArray groups)
  /\ groupsStrToArray (groupsArrayToStr (Some (groupsStrToArray groups)))
     = groupsStrToArray groups.
Proof.
  assert (Hwf : Forall (fun g => g <> "" /\ includes g "," = false)
                       (groupsStrToArray groups)).
  { unfold groupsStrToArray. apply Forall_forall. intros g Hg.
    apply filter_In in Hg as [Hin Hne]. split.
    - intro Heq. subst g. discriminate Hne.
    - pose proof (split_pieces_clean groups ","%char) as Hclean.
      rewrite Forall_forall in Hclean. exact (Hclean g Hin). }
  split; [exact Hwf|].
  unfold groupsArrayToStr.
  destruct (groupsStrToArray groups) as [|g gs] eqn:Hgs; [reflexivity|].
  unfold groupsStrToArray at 1. rewrite split_join.
  - apply filter_nonempty_clean. eapply Forall_impl; [|exact Hwf].
    intros a [Ha _]. exact Ha.
  - discriminate.
  - eapply Forall_impl; [|exact Hwf]. intros a [_ Ha]. exact Ha.
Qed.

(* ================================================================== *)
(** ** Client utilities: protocols, numbers and identifiers *)
(* ================================================================== *)

Lemma prefix_app (a b : string) : String.prefix a (a ++ b)%string = true.
Proof.
  induction a as [|x a IH]; simpl.
  - destruct b; reflexivity.
  - destruct (ascii_dec x x) as [_|Hneq]; [exact IH|congruence].
Qed.

Lemma includes_of_prefix (s n : string) :
  String.prefix n s = true -> includes s n = true.
Proof. intro H. destruct s; cbn [includes]; rewrite H; reflexivity. Qed.

Lemma includes_skip (x : ascii) (s n : string) :
  includes s n = true -> includes (String x s) n = true.
Proof.
  intro H. cbn [includes]. rewrite H.
  destruct (String.prefix n (String x s)); reflexivity.
Qed.

Lemma appendHttp_cases (u : string) :
  appendHttpIfNoProtocol (Some u)
  = if (u =? "")%string then ""
    else if includes u "://" then u else ("http://" ++ u)%string.
Proof.
  unfold appendHttpIfNoProtocol.
  destruct (u =? "")%string; [reflexivity|].
  destruct (includes u "://"); reflexivity.
Qed.

Lemma includes_http (u : string) : includes ("http://" ++ u)%string "://" = true.
Proof.
  change ("http://" ++ u)%string
    with (String "h" (String "t" (String "t" (String "p" ("://" ++ u)%string)))).
  do 4 apply includes_skip. apply includes_of_prefix. apply prefix_app.
Qed.

(** X10.  [appendHttpIfNoProtocol] returns either the empty string
    (for a missing or empty URI) or a string that contains [://], and
    applying it to its own result changes nothing. *)
Theorem appendHttpIfNoProtocol_idempotent (uri : option string) :
  (appendHttpIfNoProtocol uri = ""
   \/ includes (appendHttpIfNoProtocol uri) "://" = true)
  /\ appendHttpIfNoProtocol (Some (appendHttpIfNoProtocol uri))
     = appendHttpIfNoProtocol uri.
Proof.
  destruct uri as [u|]; [|split; [left|]; reflexivity].
  rewrite (appendHttp_cases u).
  destruct (String.eqb_spec u "") as [->|Hne]; [split; [left|]; reflexivity|].
  destruct (includes u "://") eqn:Hinc.
  - split; [right; exact Hinc|].
    rewrite appendHttp_cases, Hinc.
    destruct (String.eqb_spec u ""); [contradiction|reflexivity].
  - split; [right; apply includes_http|].
    rewrite appendHttp_cases, includes_http. reflexivity.
Qed.

(** *** Decimal digits *)













(** *** Message ids, versions and locations *)



Lemma string_app_nil (s : string) : (s ++ "")%string = s.
Proof. induction s as [|x s IH]; simpl; [reflexivity|]. rewrite IH. reflexivity. Qed.








(* ================================================================== *)
(** ** Client utilities: query parameters *)
(* ================================================================== *)

Lemma uri_base_clean (uri : string) : includes (uri_base uri) "?" = false.
Proof.
  unfold uri_base.
  pose proof (split_pieces_clean uri "?"%char) as Hclean.
  destruct (split uri "?") as [|b pieces]; [reflexivity|].
  inversion Hclean; assumption.
Qed.

Lemma uri_base_without_query (uri : string) :
  includes uri "?" = false -> uri_base uri = uri.
Proof.
  intro H. unfold uri_base. rewrite (split_without_separator _ _ H). reflexivity.
Qed.

Lemma uri_base_with_query (base query : string) :
  includes base "?" = false ->
  uri_base (base ++ "?" ++ query)%string = base.
Proof.
  intro H. unfold uri_base.
  change (base ++ "?" ++ query)%string with (base ++ String "?" query)%string.
  rewrite (split_at_separator _ _ _ H). reflexivity.
Qed.

(** The result in terms of the base and of the query written. *)
Lemma getUriFromParams_shape (uri : string) (params : list KVRow) :
  getUriFromParams uri params
  = (if (search_params 0 params "" =? "")%string then uri_base uri
     else uri_base uri ++ "?" ++ search_params 0 params "")%string.
Proof.
  unfold getUriFromParams.
  assert (Hbase : match split (if negb (includes uri "?")
                               then (uri ++ "?")%string else uri) "?" with
                  | b :: _ => b
                  | [] => ""
                  end = uri_base uri).
  { destruct (includes uri "?") eqn:Hinc; cbn [negb]; [reflexivity|].
    rewrite (uri_base_without_query uri Hinc).
    change (uri ++ "?")%string with (uri ++ String "?" "")%string.
    rewrite (split_at_separator _ _ _ Hinc). reflexivity. }
  rewrite Hbase. reflexivity.
Qed.

(** X15.  [getUriFromParams] replaces the query of the URI: only the
    text before the first question mark of the input is kept, and
    writing the same parameters into the result once more changes
    nothing. *)
Theorem getUriFromParams_idempotent (uri : string) (params : list KVRow) :
  getUriFromParams uri params = getUriFromParams (uri_base uri) params
  /\ getUriFromParams (getUriFromParams uri params) params
     = getUriFromParams uri params.
Proof.
  assert (Hbb : uri_base (uri_base uri) = uri_base uri)
    by (apply uri_base_without_query, uri_base_clean).
  split.
  - rewrite !getUriFromParams_shape, Hbb. reflexivity.
  - rewrite (getUriFromParams_shape (getUriFromParams uri params)).
    rewrite (getUriFromParams_shape uri).
    destruct (search_params 0 params "" =? "")%string eqn:Hsp.
    + rewrite Hbb. reflexivity.
    + rewrite (uri_base_with_query _ _ (uri_base_clean uri)). reflexivity.
Qed.

Lemma concat_cons (sep x : string) (l : list string) :
  String.concat sep (x :: l)
  = (x ++ String.concat "" (map (fun y => sep ++ y) l))%string.
Proof.
  revert x. induction l as [|y l IH]; intro x.
  - simpl. rewrite string_app_nil. reflexivity.
  - change (String.concat sep (x :: y :: l))
      with (x ++ sep ++ String.concat sep (y :: l))%string.
    rewrite (IH y).
    change (String.concat "" (map (fun z => sep ++ z) (y :: l)))%string
      with (String.concat "" ((sep ++ y)%string :: map (fun z => (sep ++ z)%string) l)).
    destruct l as [|z l].
    + simpl. rewrite !string_app_nil. reflexivity.
    + change (String.concat "" ((sep ++ y)%string :: map (fun w => (sep ++ w)%string) (z :: l)))
        with ((sep ++ y) ++ "" ++ String.concat "" (map (fun w => (sep ++ w)%string) (z :: l)))%string.
      rewrite string_app_assoc. reflexivity.
Qed.

Lemma includes_concat_clean (sep : string) (l : list string) (c : ascii) :
  includes sep (String c "") = false ->
  Forall (fun x => includes x (String c "") = false) l ->
  includes (String.concat sep l) (String c "") = false.
Proof.
  intros Hsep Hl. induction Hl as [|x l Hx Hl IH]; [reflexivity|].
  destruct l as [|y l]; [exact Hx|].
  change (String.concat sep (x :: y :: l))
    with (x ++ sep ++ String.concat sep (y :: l))%string.
  rewrite !includes_char_app, Hx, Hsep, IH. reflexivity.
Qed.

Lemma not_blank_test (row : KVRow) :
  not_blank row -> ((key row =? "") && (value row =? ""))%bool%string = false.
Proof.
  intros [H|H].
  - destruct (String.eqb_spec (key row) ""); [contradiction|reflexivity].
  - destruct (String.eqb_spec (value row) ""); [contradiction|].
    apply andb_false_r.
Qed.

Lemma search_params_later (rows : list KVRow) :
  Forall not_blank rows ->
  forall i acc,
  search_params (S i) rows acc
  = (acc ++ String.concat "" (map (fun r => "&" ++ row_text r) rows))%string.
Proof.
  induction 1 as [|r rows Hr Hrows IH]; intros i acc.
  - simpl. rewrite string_app_nil. reflexivity.
  - cbn [search_params]. rewrite (not_blank_test r Hr).
    cbn [Nat.eqb]. rewrite IH.
    change (map (fun r0 => ("&" ++ row_text r0)%string) (r :: rows))
      with (("&" ++ row_text r)%string :: map (fun r0 => ("&" ++ row_text r0)%string) rows).
    destruct rows as [|r' rows].
    + simpl. rewrite !string_app_nil, string_app_assoc. reflexivity.
    + change (String.concat "" (("&" ++ row_text r)%string
                                  :: map (fun r0 => ("&" ++ row_text r0)%string) (r' :: rows)))
        with (("&" ++ row_text r) ++ ""
                ++ String.concat "" (map (fun r0 => ("&" ++ row_text r0)%string) (r' :: rows)))%string.
      unfold row_text. rewrite !string_app_assoc. reflexivity.
Qed.

(** Without blank rows the query is the rows joined by [&]. *)
Lemma search_params_join (rows : list KVRow) :
  Forall not_blank rows ->
  search_params 0 rows "" = join (map row_text rows) "&".
Proof.
  intro H. destruct H as [|r rows Hr Hrows]; [reflexivity|].
  cbn [search_params]. rewrite (not_blank_test r Hr). cbn [Nat.eqb].
  rewrite (search_params_later rows Hrows).
  unfold join. cbn [map]. rewrite concat_cons, map_map. reflexivity.
Qed.

Lemma uri_param_row_text (row : KVRow) :
  includes (key row) "=" = false ->
  uri_param (row_text row) = plain_row (key row) (value row).
Proof.
  intro Hk. unfold uri_param, row_text.
  change (key row ++ "=" ++ value row)%string
    with (key row ++ String "=" (value row))%string.
  rewrite (split_at_separator _ _ _ Hk), join_split. reflexivity.
Qed.

Lemma row_text_not_empty (row : KVRow) : (row_text row =? "")%string = false.
Proof. unfold row_text. destruct (key row); reflexivity. Qed.

Lemma concat_not_empty (sep x : string) (l : list string) :
  (x =? "")%string = false -> (String.concat sep (x :: l) =? "")%string = false.
Proof.
  intro Hx. rewrite concat_cons. destruct x; [discriminate|reflexivity].
Qed.

(** X16.  Parameters written into a URI by [getUriFromParams] are
    read back by [getParamsFromUri], keys and values unchanged and in
    order, with no warning, provided no row is blank and no key or
    value contains [&] or [?] and no key contains [=]. *)
Theorem uri_params_round_trip (uri : string) (rows : list KVRow) :
  Forall row_writable rows ->
  getParamsFromUri (getUriFromParams uri rows) None
  = (map (fun row => plain_row (key row) (value row)) rows, []).
Proof.
  intro Hrows.
  assert (Hnb : Forall not_blank rows).
  { eapply Forall_impl; [|exact Hrows]. intros r Hr. exact (proj1 Hr). }
  rewrite getUriFromParams_shape, (search_params_join rows Hnb).
  destruct rows as [|r rows].
  - cbn [map join String.concat String.eqb]. unfold getParamsFromUri.
    rewrite (split_without_separator _ _ (uri_base_clean uri)). reflexivity.
  - assert (Hne : (join (map row_text (r :: rows)) "&" =? "")%string = false).
    { unfold join. cbn [map]. apply concat_not_empty, row_text_not_empty. }
    rewrite Hne.
    assert (Hq : includes (join (map row_text (r :: rows)) "&") "?" = false).
    { unfold join. apply includes_concat_clean; [reflexivity|].
      apply Forall_map. eapply Forall_impl; [|exact Hrows].
      intros x (_ & _ & _ & Hkq & _ & Hvq). unfold row_text.
      rewrite !includes_char_app, Hkq, Hvq. reflexivity. }
    unfold getParamsFromUri.
    change (uri_base uri ++ "?" ++ join (map row_text (r :: rows)) "&")%string
      with (uri_base uri ++ String "?" (join (map row_text (r :: rows)) "&"))%string.
    rewrite (split_at_separator _ _ _ (uri_base_clean uri)).
    rewrite (split_without_separator _ _ Hq).
    cbn [nth_error]. rewrite Hne.
    rewrite split_join.
    + rewrite map_map. f_equal. apply map_ext_in. intros x Hx.
      rewrite Forall_forall in Hrows.
      destruct (Hrows x Hx) as (_ & Hke & _). apply uri_param_row_text, Hke.
    + discriminate.
    + apply Forall_map. eapply Forall_impl; [|exact Hrows].
      intros x (_ & _ & Hka & _ & Hva & _). unfold row_text.
      rewrite !includes_char_app, Hka, Hva. reflexivity.
Qed.


(** *** Merging the parameters of a URI into a list of rows *)

Lemma nth_error_skipn_cons {A : Type} (l : list A) (i : nat) (x : A) :
  nth_error l i = Some x -> skipn i l = x :: skipn (S i) l /\ i < List.length l.
Proof.
  revert i. induction l as [|y l IH]; intros i H.
  - destruct i; discriminate.
  - destruct i as [|i].
    + inversion H. subst. split; [reflexivity|simpl; lia].
    + simpl in H. destruct (IH i H) as [Hs Hl]. split.
      * exact Hs.
      * simpl. lia.
Qed.

Lemma nth_error_none_skipn {A : Type} (l : list A) (i : nat) :
  nth_error l i = None -> skipn i l = [] /\ List.length l <= i.
Proof.
  intro H. apply nth_error_None in H. split; [|exact H].
  apply skipn_all2. exact H.
Qed.

Lemma uri_param_enabled (kv : string) : is_disabled (uri_param kv) = false.
Proof. unfold uri_param. destruct (split kv "="); reflexivity. Qed.

Lemma merge_params_spec (params uriParams : list KVRow) :
  Forall (fun u => is_disabled u = false) uriParams ->
  forall index,
  exists rows,
    merge_params params uriParams index
    = (rows,
       repeat warn_enabled
         (List.length (enabled_rows params) - (List.length uriParams - index)),
       index + List.length (enabled_rows params))
    /\ filter is_disabled rows = filter is_disabled params
    /\ enabled_rows rows
       = firstn (List.length (enabled_rows params)) (skipn index uriParams)
         ++ repeat (plain_row "" "")
              (List.length (enabled_rows params) - (List.length uriParams - index)).
Proof.
  intro Hen. induction params as [|param params IH]; intro index.
  - exists []. cbn. rewrite Nat.add_0_r. repeat split.
  - cbn [merge_params].
    destruct (is_disabled param) eqn:Hd.
    + assert (Hsame : enabled_rows (param :: params) = enabled_rows params).
      { unfold enabled_rows. cbn [filter]. rewrite Hd. reflexivity. }
      rewrite Hsame.
      destruct (IH index) as (rows & Hm & Hdis & Hena).
      rewrite Hm. exists (param :: rows).
      split; [reflexivity|]. split.
      * cbn [filter]. rewrite Hd. f_equal. exact Hdis.
      * unfold enabled_rows in *. cbn [filter]. rewrite Hd. exact Hena.
    + assert (Hmore : List.length (enabled_rows (param :: params))
                      = S (List.length (enabled_rows params))).
      { unfold enabled_rows. cbn [filter]. rewrite Hd. reflexivity. }
      rewrite Hmore.
      destruct (IH (S index)) as (rows & Hm & Hdis & Hena).
      remember (List.length (enabled_rows params)) as n eqn:Hn.
      rewrite Hm.
      destruct (nth_error uriParams index) as [u|] eqn:Hnth.
      * destruct (nth_error_skipn_cons _ _ _ Hnth) as [Hskip Hlt].
        assert (Hu : is_disabled u = false).
        { rewrite Forall_forall in Hen. apply Hen. eapply nth_error_In; exact Hnth. }
        assert (Hsub : S n - (List.length uriParams - index)
                       = n - (List.length uriParams - S index)) by lia.
        rewrite Hsub. exists (u :: rows).
        split; [rewrite Nat.add_succ_r; reflexivity|]. split.
        -- cbn [filter]. rewrite Hu, Hd. exact Hdis.
        -- rewrite Hskip. cbn [firstn app].
           unfold enabled_rows in *. cbn [filter]. rewrite Hu. cbn [negb].
           f_equal. exact Hena.
      * destruct (nth_error_none_skipn _ _ Hnth) as [Hskip Hle].
        assert (Hskip' : skipn (S index) uriParams = [])
          by (apply skipn_all2; lia).
        assert (Hsub : n - (List.length uriParams - S index) = n) by lia.
        assert (Hsub' : S n - (List.length uriParams - index) = S n) by lia.
        rewrite Hsub in *. rewrite Hsub'. rewrite Hskip' in Hena. rewrite Hskip.
        rewrite firstn_nil in *. cbn [app] in *.
        exists (plain_row "" "" :: rows).
        split; [rewrite Nat.add_succ_r; reflexivity|]. split.
        -- cbn [filter is_disabled plain_row isEnabled]. rewrite Hd. exact Hdis.
        -- unfold enabled_rows in *. cbn [filter is_disabled plain_row isEnabled negb repeat].
           f_equal. exact Hena.
Qed.

(** The two cases of [getParamsFromUri], told apart by what it reads
    when it is given no rows. *)
Lemma getParamsFromUri_cases (uri : string) :
  (fst (getParamsFromUri uri None) = []
   /\ forall params,
        getParamsFromUri uri params
        = (match params with
           | Some ps => filter is_disabled ps
           | None => []
           end, []))
  \/ (fst (getParamsFromUri uri None) <> []
      /\ Forall (fun u => is_disabled u = false) (fst (getParamsFromUri uri None))
      /\ forall ps,
           getParamsFromUri uri (Some ps)
           = (let '(newParams, warnings, indexEnabledParams) :=
                merge_params ps (fst (getParamsFromUri uri None)) 0 in
              (newParams ++ skipn indexEnabledParams (fst (getParamsFromUri uri None)),
               warnings ++
               (if Nat.ltb indexEnabledParams
                     (List.length (fst (getParamsFromUri uri None)))
                then [warn_uri] else [])))).
Proof.
  unfold getParamsFromUri.
  destruct (nth_error (split uri "?") 1) as [q|].
  2:{ left. split; [reflexivity|]. intro params. reflexivity. }
  destruct (q =? "")%string.
  { left. split; [reflexivity|]. intro params. reflexivity. }
  right. cbn [fst]. split; [|split].
  - pose proof (split_not_nil q "&"%char) as Hne.
    destruct (split q "&"); [congruence|discriminate].
  - apply Forall_map. apply Forall_forall. intros x _. apply uri_param_enabled.
  - intro ps. reflexivity.
Qed.

(** X17.  When the URI carries parameters, [getParamsFromUri] merges
    them into the rows it is given: the disabled rows are kept as
    they are and in their order; the rows that are not disabled are
    replaced, in order, by the parameters of the URI, followed by
    blank rows when the URI has fewer parameters than there were
    enabled rows; and a warning is given for every blank row, and one
    more when the URI has more parameters than there were enabled
    rows. *)
Theorem getParamsFromUri_merges (uri : string) (params : list KVRow) :
  fst (getParamsFromUri uri None) <> [] ->
  let uriParams := fst (getParamsFromUri uri None) in
  let n := List.length (enabled_rows params) in
  let missing := n - List.length uriParams in
  filter is_disabled (fst (getParamsFromUri uri (Some params)))
  = filter is_disabled params
  /\ enabled_rows (fst (getParamsFromUri uri (Some params)))
     = uriParams ++ repeat (plain_row "" "") missing
  /\ snd (getParamsFromUri uri (Some params))
     = repeat warn_enabled missing
       ++ (if Nat.ltb n (List.length uriParams) then [warn_uri] else []).
Proof.
  intros Hne uriParams n missing.
  destruct (getParamsFromUri_cases uri) as [[Hnil _]|(_ & Hen & Hmerge)];
    [congruence|].
  rewrite (Hmerge params). fold uriParams in Hen |- *.
  destruct (merge_params_spec params uriParams Hen 0) as (rows & Hm & Hdis & Hena).
  rewrite Hm. cbn [fst snd]. rewrite Nat.sub_0_r in *. cbn [Nat.add skipn] in *.
  fold n in Hena |- *. fold missing in Hena |- *.
  assert (Hplain : forall l, Forall (fun u => is_disabled u = false) l ->
                             filter is_disabled l = []
                             /\ enabled_rows l = l).
  { induction 1 as [|u l Hu Hl [IH1 IH2]]; [split; reflexivity|].
    unfold enabled_rows in *. cbn [filter]. rewrite Hu. cbn [negb].
    split; [exact IH1|f_equal; exact IH2]. }
  assert (Hrest : Forall (fun u => is_disabled u = false) (skipn n uriParams)).
  { apply Forall_forall. intros x Hx. rewrite Forall_forall in Hen.
    apply Hen. rewrite <- (firstn_skipn n uriParams).
    apply in_or_app. right. exact Hx. }
  destruct (Hplain _ Hrest) as [Hr1 Hr2].
  split; [|split].
  - rewrite filter_app, Hdis, Hr1, app_nil_r. reflexivity.
  - unfold enabled_rows in *. rewrite filter_app, Hena, Hr2.
    destruct (Nat.le_gt_cases n (List.length uriParams)) as [Hle|Hgt].
    + replace missing with 0 by (unfold missing; lia). cbn [repeat].
      rewrite !app_nil_r. apply firstn_skipn.
    + rewrite firstn_all2 by lia. rewrite skipn_all2 by lia.
      rewrite app_nil_r. reflexivity.
  - reflexivity.
Qed.


(* ================================================================== *)
(** ** Client utilities: rows and objects *)
(* ================================================================== *)

Lemma own_put_same (k v : string) (o : JsObject) : own k (put k v o) = Some v.
Proof.
  induction o as [|[k' v'] o IH]; simpl.
  - rewrite String.eqb_refl. reflexivity.
  - destruct (String.eqb_spec k' k) as [->|Hne]; simpl.
    + rewrite String.eqb_refl. reflexivity.
    + destruct (String.eqb_spec k' k); [contradiction|exact IH].
Qed.

Lemma own_put_other (k k' v : string) (o : JsObject) :
  k' <> k -> own k (put k' v o) = own k o.
Proof.
  intro Hne. induction o as [|[k0 v0] o IH]; simpl.
  - destruct (String.eqb_spec k' k); [contradiction|reflexivity].
  - destruct (String.eqb_spec k0 k') as [->|Hne0]; simpl.
    + destruct (String.eqb_spec k' k); [contradiction|reflexivity].
    + destruct (String.eqb_spec k0 k); [reflexivity|exact IH].
Qed.

Lemma put_fresh (k v : string) (o : JsObject) :
  own k o = None -> put k v o = o ++ [(k, v)].
Proof.
  induction o as [|[k' v'] o IH]; simpl; intro H; [reflexivity|].
  destruct (String.eqb_spec k' k); [discriminate|].
  rewrite (IH H). reflexivity.
Qed.

Lemma put_keys (k v : string) (o : JsObject) :
  map fst (put k v o)
  = match own k o with
    | Some _ => map fst o
    | None => map fst o ++ [k]
    end.
Proof.
  induction o as [|[k' v'] o IH]; simpl; [reflexivity|].
  destruct (String.eqb_spec k' k) as [->|Hne]; simpl; [reflexivity|].
  rewrite IH. destruct (own k o); reflexivity.
Qed.

Lemma own_none_not_key (k : string) (o : JsObject) :
  own k o = None <-> ~ In k (map fst o).
Proof.
  induction o as [|[k' v'] o IH]; simpl.
  - split; [intros _ H; exact H|reflexivity].
  - destruct (String.eqb_spec k' k) as [->|Hne].
    + split; [discriminate|]. intro H. exfalso. apply H. left. reflexivity.
    + rewrite IH. split.
      * intros H [Heq|Hin]; [contradiction|exact (H Hin)].
      * intros H Hin. apply H. right. exact Hin.
Qed.

(** What [kvRowsToMap] holds under a name, given what the object held
    before the rows were added. *)
Lemma fold_add_row_own (k : string) (rows : list KVRow) :
  k <> "" -> inherited k = false ->
  forall acc,
  own k (fold_left add_row rows acc)
  = match own k acc with
    | Some v =>
        if (v =? "")%string
        then match kept_value k rows with
             | Some v' => Some v'
             | None => Some ""
             end
        else Some v
    | None => kept_value k rows
    end.
Proof.
  intros Hk Hinh. induction rows as [|r rows IH]; intro acc.
  - simpl. destruct (own k acc) as [v|]; [|reflexivity].
    destruct (String.eqb_spec v ""); [subst; reflexivity|reflexivity].
  - cbn [fold_left kept_value]. rewrite IH. unfold add_row.
    destruct (String.eqb_spec (key r) "") as [He|He].
    + destruct (String.eqb_spec (key r) k) as [Hrk|_]; [congruence|reflexivity].
    + destruct (String.eqb_spec (key r) k) as [Hrk|Hrk].
      * rewrite Hrk. unfold get_truthy. rewrite Hinh.
        destruct (own k acc) as [v|] eqn:Hown.
        -- destruct (String.eqb_spec v "") as [->|Hv]; cbn [negb].
           ++ rewrite own_put_same.
              destruct (value r =? "")%string.
              ** destruct (kept_value k rows); reflexivity.
              ** reflexivity.
           ++ rewrite Hown. destruct (String.eqb_spec v ""); [contradiction|].
              reflexivity.
        -- rewrite own_put_same.
           destruct (value r =? "")%string; reflexivity.
      * destruct (get_truthy acc (key r)); [reflexivity|].
        rewrite (own_put_other k (key r) (value r) acc Hrk). reflexivity.
Qed.

(** The names [kvRowsToMap] stores are never empty, never inherited,
    and each is stored once. *)
Lemma fold_add_row_keys (rows : list KVRow) :
  forall acc,
  NoDup (map fst acc) ->
  Forall (fun kv => fst kv <> "" /\ inherited (fst kv) = false) acc ->
  NoDup (map fst (fold_left add_row rows acc))
  /\ Forall (fun kv => fst kv <> "" /\ inherited (fst kv) = false)
            (fold_left add_row rows acc).
Proof.
  induction rows as [|r rows IH]; intros acc Hnd Hok; [split; assumption|].
  cbn [fold_left]. apply IH; unfold add_row.
  - destruct (String.eqb_spec (key r) ""); [exact Hnd|].
    destruct (get_truthy acc (key r)); [exact Hnd|].
    rewrite put_keys. destruct (own (key r) acc) eqn:Hown; [exact Hnd|].
    apply own_none_not_key in Hown.
    apply NoDup_app; [exact Hnd | constructor; [intros []|constructor] | ].
    intros x Hx [<-|[]]. exact (Hown Hx).
  - destruct (String.eqb_spec (key r) "") as [|Hne]; [exact Hok|].
    unfold get_truthy.
    destruct (own (key r) acc) as [v|] eqn:Hown.
    + destruct (negb (v =? "")%string); [exact Hok|].
      apply Forall_forall. intros [k' v'] Hin.
      rewrite Forall_forall in Hok.
      assert (Hkeys : In k' (map fst acc)).
      { assert (Hin' : In k' (map fst (put (key r) (value r) acc)))
          by (apply in_map_iff; exists (k', v'); split; [reflexivity|exact Hin]).
        rewrite put_keys, Hown in Hin'. exact Hin'. }
      apply in_map_iff in Hkeys as [[k0 v0] [Heq Hin0]]. simpl in Heq. subst k0.
      exact (Hok _ Hin0).
    + destruct (inherited (key r)) eqn:Hinh; [exact Hok|].
      rewrite (put_fresh _ _ _ Hown). apply Forall_app. split; [exact Hok|].
      constructor; [|constructor]. split; assumption.
Qed.

(** X19.  Under a name that is neither empty nor inherited from
    [Object.prototype], [kvRowsToMap] holds the first value given for
    that name that is not the empty string (the empty string when the
    name is only given empty values), and nothing when no row has
    that name: a first row with an empty value is overwritten by a
    later row with the same key. *)
Theorem kvRowsToMap_keeps_first_value (rows : list KVRow) (k : string) :
  k <> "" -> inherited k = false ->
  own k (kvRowsToMap (Some rows)) = kept_value k rows.
Proof.
  intros Hk Hinh. unfold kvRowsToMap.
  rewrite (fold_add_row_own k rows Hk Hinh []). reflexivity.
Qed.

(** X20.  The object built by [kvRowsToMap] has each of its names
    once, and never the empty name nor a name that every object
    inherits (such as [toString] or [constructor]): rows with such
    keys are left out; and a missing list of rows gives the empty
    object. *)
Theorem kvRowsToMap_names (rows : option (list KVRow)) :
  NoDup (map fst (kvRowsToMap rows))
  /\ Forall (fun kv => fst kv <> "" /\ inherited (fst kv) = false)
            (kvRowsToMap rows)
  /\ kvRowsToMap None = [].
Proof.
  destruct rows as [rs|]; cbn [kvRowsToMap].
  - destruct (fold_add_row_keys rs [] (NoDup_nil _) (Forall_nil _)) as [H1 H2].
    split; [exact H1|]. split; [exact H2|reflexivity].
  - split; [constructor|]. split; [constructor|reflexivity].
Qed.

Lemma fold_add_row_fresh (rows : list KVRow) :
  forall acc,
  NoDup (map key rows) ->
  (forall row, In row rows -> ~ In (key row) (map fst acc)) ->
  Forall (fun row => key row <> "" /\ inherited (key row) = false) rows ->
  fold_left add_row rows acc
  = acc ++ map (fun row => (key row, value row)) rows.
Proof.
  induction rows as [|r rows IH]; intros acc Hnd Hfresh Hok.
  - simpl. rewrite app_nil_r. reflexivity.
  - inversion Hnd as [|? ? Hnotin Hnd']; subst.
    inversion Hok as [|? ? [Hne Hinh] Hok']; subst.
    assert (Hown : own (key r) acc = None).
    { apply own_none_not_key. apply Hfresh. left. reflexivity. }
    cbn [fold_left]. unfold add_row at 2.
    destruct (String.eqb_spec (key r) ""); [contradiction|].
    unfold get_truthy. rewrite Hown, Hinh, (put_fresh _ _ _ Hown).
    rewrite IH; [rewrite <- app_assoc; reflexivity|exact Hnd'| |exact Hok'].
    intros row Hrow Hin. rewrite map_app in Hin.
    apply in_app_or in Hin as [Hin|[Heq|[]]].
    + exact (Hfresh row (or_intror Hrow) Hin).
    + apply Hnotin. simpl in Heq. rewrite Heq. apply in_map. exact Hrow.
Qed.

Lemma Object_entries_plain (o : JsObject) :
  Forall (fun kv => array_index (fst kv) = None) o ->
  Object_entries o = o.
Proof.
  intro H. unfold Object_entries, index_entries.
  assert (Hidx : flat_map (fun kv => match array_index (fst kv) with
                                     | Some n => [(n, kv)]
                                     | None => []
                                     end) o = []).
  { induction H as [|kv o Hkv Ho IH]; [reflexivity|].
    cbn [flat_map]. rewrite Hkv, IH. reflexivity. }
  rewrite Hidx. cbn [fold_right map app].
  induction H as [|kv o Hkv Ho IH]; [reflexivity|].
  cbn [filter]. rewrite Hkv. f_equal. apply IH.
  cbn [flat_map] in Hidx. rewrite Hkv in Hidx. exact Hidx.
Qed.

(** X21.  Rows turned into an object by [kvRowsToMap] and back into
    rows by [mapToKvRows] come back with their keys and values, in
    order, provided the keys are pairwise distinct and none is empty,
    inherited from [Object.prototype], or an array index. *)
Theorem kv_rows_round_trip (rows : list KVRow) :
  NoDup (map key rows) ->
  Forall (fun row => key row <> "" /\ inherited (key row) = false
                     /\ array_index (key row) = None) rows ->
  mapToKvRows (kvRowsToMap (Some rows))
  = map (fun row => plain_row (key row) (value row)) rows.
Proof.
  intros Hnd Hok. unfold mapToKvRows, kvRowsToMap.
  rewrite (fold_add_row_fresh rows [] Hnd).
  - cbn [app]. rewrite Object_entries_plain.
    + rewrite map_map. reflexivity.
    + apply Forall_map. eapply Forall_impl; [|exact Hok].
      intros row (_ & _ & Hidx). exact Hidx.
  - intros row _ [].
  - eapply Forall_impl; [|exact Hok]. intros row (H1 & H2 & _). split; assumption.
Qed.

(** X22.  An object turned into rows by [mapToKvRows] and back into
    an object by [kvRowsToMap] is the same object, provided none of
    its names is empty, inherited from [Object.prototype], or an array
    index. *)
Theorem kv_map_round_trip (o : JsObject) :
  NoDup (map fst o) ->
  Forall (fun kv => fst kv <> "" /\ inherited (fst kv) = false
                    /\ array_index (fst kv) = None) o ->
  kvRowsToMap (Some (mapToKvRows o)) = o.
Proof.
  intros Hnd Hok. unfold mapToKvRows, kvRowsToMap.
  rewrite Object_entries_plain
    by (eapply Forall_impl; [|exact Hok]; intros kv (_ & _ & H); exact H).
  rewrite (fold_add_row_fresh _ []).
  - cbn [app]. rewrite map_map. cbn [key value plain_row].
    rewrite <- (map_id o) at 2. apply map_ext. intros [k v]. reflexivity.
  - rewrite map_map. cbn [key plain_row]. exact Hnd.
  - intros row _ [].
  - apply Forall_map. eapply Forall_impl; [|exact Hok].
    intros kv (H1 & H2 & _). split; assumption.
Qed.

Lemma insert_by_index_perm (e : Z * (string * string))
      (l : list (Z * (string * string))) :
  Permutation (insert_by_index e l) (e :: l).
Proof.
  induction l as [|e' l IH]; simpl; [apply Permutation_refl|].
  destruct (fst e <=? fst e')%Z; [apply Permutation_refl|].
  eapply Permutation_trans; [apply perm_skip; exact IH|apply perm_swap].
Qed.

Lemma sort_by_index_perm (l : list (Z * (string * string))) :
  Permutation (fold_right insert_by_index [] l) l.
Proof.
  induction l as [|e l IH]; simpl; [constructor|].
  eapply Permutation_trans; [apply insert_by_index_perm|].
  apply perm_skip. exact IH.
Qed.

Lemma index_entries_filter (o : JsObject) :
  map snd (index_entries o)
  = filter (fun kv => match array_index (fst kv) with
                      | Some _ => true
                      | None => false
                      end) o.
Proof.
  unfold index_entries. induction o as [|kv o IH]; [reflexivity|].
  cbn [flat_map filter]. destruct (array_index (fst kv)); cbn [app map snd];
    rewrite IH; reflexivity.
Qed.

Lemma filter_split_perm {A : Type} (p q : A -> bool) (l : list A) :
  (forall x, q x = negb (p x)) ->
  Permutation (filter p l ++ filter q l) l.
Proof.
  intro Hq. induction l as [|x l IH]; [constructor|].
  cbn [filter]. rewrite Hq. destruct (p x); cbn [negb app].
  - apply perm_skip. exact IH.
  - eapply Permutation_trans; [apply Permutation_sym, Permutation_middle|].
    apply perm_skip. exact IH.
Qed.

(** X23.  [mapToKvRows] returns one row for each property of the
    object, with its name and value: no property is lost or repeated,
    whatever the order in which the engine lists them. *)
Theorem mapToKvRows_keeps_every_property (o : JsObject) :
  Permutation (mapToKvRows o) (map (fun kv => plain_row (fst kv) (snd kv)) o)
  /\ List.length (mapToKvRows o) = List.length o.
Proof.
  assert (Hperm : Permutation (Object_entries o) o).
  { unfold Object_entries.
    eapply Permutation_trans.
    - apply Permutation_app_tail. apply Permutation_map. apply sort_by_index_perm.
    - rewrite index_entries_filter. apply filter_split_perm.
      intro kv. destruct (array_index (fst kv)); reflexivity. }
  split.
  - unfold mapToKvRows. apply Permutation_map. exact Hperm.
  - unfold mapToKvRows. rewrite length_map. apply Permutation_length. exact Hperm.
Qed.

(* ================================================================== *)
(** ** Client utilities: class names *)
(* ================================================================== *)

Lemma trimStart_length (s : string) :
  String.length (trimStart s) <= String.length s.
Proof.
  induction s as [|c s IH]; simpl; [lia|].
  destruct (is_whitespace c); simpl; lia.
Qed.

Lemma trimStart_idempotent (s : string) : trimStart (trimStart s) = trimStart s.
Proof.
  induction s as [|c s IH]; [reflexivity|].
  cbn [trimStart]. destruct (is_whitespace c) eqn:Hc; [exact IH|].
  cbn [trimStart]. rewrite Hc. reflexivity.
Qed.

Lemma trimEnd_idempotent (s : string) : trimEnd (trimEnd s) = trimEnd s.
Proof.
  induction s as [|c s IH]; [reflexivity|].
  cbn [trimEnd].
  destruct (is_whitespace c && (trimEnd s =? "")%string)%bool eqn:Hc; [reflexivity|].
  cbn [trimEnd]. rewrite IH, Hc. reflexivity.
Qed.

Lemma trimStart_trimEnd (s : string) :
  trimStart s = s -> trimStart (trimEnd s) = trimEnd s.
Proof.
  destruct s as [|c s]; [reflexivity|].
  cbn [trimStart]. destruct (is_whitespace c) eqn:Hc.
  - intro H. pose proof (trimStart_length s) as Hlen.
    rewrite H in Hlen. simpl in Hlen. lia.
  - intros _. cbn [trimEnd]. rewrite Hc. cbn [andb trimStart]. rewrite Hc.
    reflexivity.
Qed.

Lemma trim_idempotent (s : string) : trim (trim s) = trim s.
Proof.
  unfold trim.
  rewrite (trimStart_trimEnd (trimStart s) (trimStart_idempotent s)).
  apply trimEnd_idempotent.
Qed.

Lemma trimStart_blank (s : string) :
  (forall c, In c (list_ascii_of_string s) -> is_whitespace c = true) ->
  trimStart s = "".
Proof.
  induction s as [|c s IH]; intro H; [reflexivity|].
  cbn [trimStart]. rewrite (H c) by (left; reflexivity).
  apply IH. intros x Hx. apply H. right. exact Hx.
Qed.

Lemma join_blanks {A : Type} (l : list A) (c : ascii) :
  In c (list_ascii_of_string (join (map (fun _ => "") l) " ")) ->
  is_whitespace c = true.
Proof.
  unfold join. induction l as [|x l IH]; simpl; [intros []|].
  destruct l as [|y l]; [intros []|].
  simpl in *. intros [<-|H]; [reflexivity|exact (IH H)].
Qed.

(** X24.  The class string built by [cn] never starts or ends with
    white space, and it is empty when the style sheet binds neither
    the name nor any of its variants. *)
Theorem cn_is_trimmed (styles : string -> option string) (name : string)
        (variants : list string) :
  trim (cn styles name variants) = cn styles name variants
  /\ (styles name = None ->
      (forall v, In v variants -> styles (name ++ "--" ++ v)%string = None) ->
      cn styles name variants = "").
Proof.
  split; [unfold cn; apply trim_idempotent|].
  intros Hname Hvariants. unfold cn. rewrite Hname.
  assert (Hmap : map (fun v => match styles (name ++ "--" ++ v)%string with
                               | Some c => c
                               | None => ""
                               end) variants
                 = map (fun _ => "") variants).
  { apply map_ext_in. intros v Hv. rewrite (Hvariants v Hv). reflexivity. }
  rewrite Hmap.
  assert (Hblank : trim (join (map (fun _ => "") variants) " ") = "").
  { unfold trim. rewrite trimStart_blank; [reflexivity|].
    intros c Hc. exact (join_blanks variants c Hc). }
  rewrite Hblank. reflexivity.
Qed.

(* ================================================================== *)
(** ** The further statements at concrete inputs *)
(* ================================================================== *)

(** [throw new Error("boom");] and [throw null;] *)
Lemma driver_contains_all_but_nullish_throws_witness :
  try_block host_ok (SThrow (Error "boom")) SDone init
  = (CThrow (Error "boom"), init)
  /\ is_nullish (Error "boom") = false
  /\ (exists m, get_message (Error "boom") = inl m
                /\ run_driver host_ok (SThrow (Error "boom")) SDone init
                   = (Fulfilled JUndefined, resume (set_internalError m init)))
  /\ (exists err, run_driver host_ok (SThrow JNull) SDone init
                  = (Rejected err, resume init)).
Proof.
  split; [reflexivity|]. split; [reflexivity|]. split.
  - exact (proj1 (driver_contains_all_but_nullish_throws host_ok
                    (SThrow (Error "boom")) SDone init init (Error "boom") eq_refl)
                 eq_refl).
  - exact (proj2 (driver_contains_all_but_nullish_throws host_ok
                    (SThrow JNull) SDone init init JNull eq_refl)
                 eq_refl).
Defined.

(** [return;] in front of any specs. *)
Lemma early_exit_skips_specs_witness :
  fst (exec_script host_ok SReturn init) <> CNormal
  /\ run_driver host_ok SReturn log_exec_log init
     = run_driver host_ok SReturn SDone init.
Proof.
  assert (H : fst (exec_script host_ok SReturn init) <> CNormal) by discriminate.
  split; [exact H|].
  exact (early_exit_skips_specs host_ok SReturn log_exec_log SDone init H).
Defined.

(** A run that does not throw. *)
Lemma run_keeps_buffer_and_slot_witness :
  (forall e, fst (try_block host_ok log_exec_log SDone one_handler) <> CThrow e)
  /\ __internalError (snd (run_driver host_ok log_exec_log SDone one_handler))
     = __internalError one_handler.
Proof.
  assert (H : forall e,
             fst (try_block host_ok log_exec_log SDone one_handler) <> CThrow e)
    by (intro e; discriminate).
  split; [exact H|].
  exact (proj2 (proj2 (run_keeps_buffer_and_slot host_ok log_exec_log SDone
                         one_handler)) H).
Defined.

(** The payloads [1], [{] and [2] delivered to a logging handler. *)
Lemma one_handoff_per_parsed_payload_witness :
  __callback one_handler = CbFun 2 (log_handler 9)
  /\ (forall res, no_register (log_handler 9 res))
  /\ (forall res st', fst (exec_script host_ok (log_handler 9 res) st') <> CPending)
  /\ exists evs,
       trace (deliver_all parse_literal host_ok ["1"; "{"; "2"]%string one_handler)
       = trace one_handler ++ evs
       /\ resumes evs = 2.
Proof.
  assert (Hno : forall res, no_register (log_handler 9 res)) by (intro; exact I).
  assert (Hdone : forall res st',
             fst (exec_script host_ok (log_handler 9 res) st') <> CPending)
    by (intros res st'; discriminate).
  split; [reflexivity|]. split; [exact Hno|]. split; [exact Hdone|].
  exact (one_handoff_per_parsed_payload parse_literal host_ok ["1"; "{"; "2"]%string
           one_handler 2 (log_handler 9) eq_refl Hno Hdone).
Defined.

(** Two states that differ in their handler but not in their buffer. *)
Lemma getInternalLogs_determines_buffer_witness :
  fst (__getInternalLogs (log 5 [JStr "a"] init))
  = fst (__getInternalLogs (log 5 [JStr "a"] one_handler))
  /\ __internalLogs (log 5 [JStr "a"] init)
     = __internalLogs (log 5 [JStr "a"] one_handler).
Proof.
  split; [reflexivity|].
  exact (getInternalLogs_determines_buffer (log 5 [JStr "a"] init)
           (log 5 [JStr "a"] one_handler) eq_refl).
Defined.

Lemma groups_round_trip_witness :
  Forall (fun g => g <> ""%string /\ includes g "," = false) ["admin"; "dev"]%string
  /\ groupsStrToArray (groupsArrayToStr (Some ["admin"; "dev"]%string))
     = ["admin"; "dev"]%string.
Proof.
  assert (H : Forall (fun g => g <> ""%string /\ includes g "," = false)
                     ["admin"; "dev"]%string).
  { repeat constructor; discriminate. }
  split; [exact H|]. exact (groups_round_trip ["admin"; "dev"]%string H).
Defined.


Lemma uri_params_round_trip_witness :
  Forall row_writable [plain_row "a" "1"; mkKVRow "b" "x=y" (Some true)]
  /\ getParamsFromUri
       (getUriFromParams "http://h/p?old=1"
          [plain_row "a" "1"; mkKVRow "b" "x=y" (Some true)]) None
     = ([plain_row "a" "1"; plain_row "b" "x=y"], []).
Proof.
  assert (H : Forall row_writable [plain_row "a" "1"; mkKVRow "b" "x=y" (Some true)]).
  { constructor; [|constructor; [|constructor]];
      (split; [left; discriminate|repeat split]). }
  split; [exact H|].
  exact (uri_params_round_trip "http://h/p?old=1"
           [plain_row "a" "1"; mkKVRow "b" "x=y" (Some true)] H).
Defined.

(** One disabled row and two enabled rows against a URI with one
    parameter. *)
Lemma getParamsFromUri_merges_witness :
  fst (getParamsFromUri "http://h/p?a=1" None) <> []
  /\ filter is_disabled
       (fst (getParamsFromUri "http://h/p?a=1"
               (Some [mkKVRow "d" "0" (Some false); plain_row "x" "9";
                      plain_row "y" "8"])))
     = [mkKVRow "d" "0" (Some false)]
  /\ enabled_rows
       (fst (getParamsFromUri "http://h/p?a=1"
               (Some [mkKVRow "d" "0" (Some false); plain_row "x" "9";
                      plain_row "y" "8"])))
     = [plain_row "a" "1"; plain_row "" ""]
  /\ snd (getParamsFromUri "http://h/p?a=1"
            (Some [mkKVRow "d" "0" (Some false); plain_row "x" "9";
                   plain_row "y" "8"]))
     = [warn_enabled].
Proof.
  assert (H : fst (getParamsFromUri "http://h/p?a=1" None) <> [])
    by discriminate.
  split; [exact H|].
  exact (getParamsFromUri_merges "http://h/p?a=1"
           [mkKVRow "d" "0" (Some false); plain_row "x" "9"; plain_row "y" "8"] H).
Defined.


(** A first row with an empty value, then the same key again. *)
Lemma kvRowsToMap_keeps_first_value_witness :
  "a"%string <> ""%string
  /\ inherited "a" = false
  /\ own "a" (kvRowsToMap (Some [plain_row "a" ""; plain_row "a" "2";
                                 plain_row "a" "3"]))
     = Some "2"%string.
Proof.
  assert (H : "a"%string <> ""%string) by discriminate.
  split; [exact H|]. split; [reflexivity|].
  exact (kvRowsToMap_keeps_first_value
           [plain_row "a" ""; plain_row "a" "2"; plain_row "a" "3"] "a" H eq_refl).
Defined.

Lemma kv_rows_round_trip_witness :
  NoDup (map key [plain_row "a" "1"; plain_row "b" ""])
  /\ mapToKvRows (kvRowsToMap (Some [plain_row "a" "1"; plain_row "b" ""]))
     = [plain_row "a" "1"; plain_row "b" ""].
Proof.
  assert (Hnd : NoDup (map key [plain_row "a" "1"; plain_row "b" ""])).
  { constructor; [intros [H|[]]; discriminate H|].
    constructor; [intros []|constructor]. }
  assert (Hok : Forall (fun row => key row <> ""%string /\ inherited (key row) = false
                                   /\ array_index (key row) = None)
                       [plain_row "a" "1"; plain_row "b" ""]).
  { repeat constructor; discriminate. }
  split; [exact Hnd|].
  exact (kv_rows_round_trip [plain_row "a" "1"; plain_row "b" ""] Hnd Hok).
Defined.

Lemma kv_map_round_trip_witness :
  NoDup (map fst [("a", "1"); ("b", "")]%string)
  /\ kvRowsToMap (Some (mapToKvRows [("a", "1"); ("b", "")]%string))
     = [("a", "1"); ("b", "")]%string.
Proof.
  assert (Hnd : NoDup (map fst [("a", "1"); ("b", "")]%string)).
  { constructor; [intros [H|[]]; discriminate H|].
    constructor; [intros []|constructor]. }
  assert (Hok : Forall (fun kv : string * string =>
                          fst kv <> ""%string /\ inherited (fst kv) = false
                          /\ array_index (fst kv) = None)
                       [("a", "1"); ("b", "")]%string).
  { repeat constructor; discriminate. }
  split; [exact Hnd|].
  exact (kv_map_round_trip [("a", "1"); ("b", "")]%string Hnd Hok).
Defined.

(** A style sheet that binds nothing. *)
Lemma cn_is_trimmed_witness :
  (fun _ : string => @None string) "btn"%string = None
  /\ cn (fun _ => None) "btn" ["big"; "red"]%string = ""%string.
Proof.
  split; [reflexivity|].
  exact (proj2 (cn_is_trimmed (fun _ => None) "btn" ["big"; "red"]%string)
               eq_refl (fun v _ => eq_refl)).
Defined.

(* ================================================================== *)
(** ** Client utilities: the cron pattern *)
(* ================================================================== *)

Lemma string_app_empty (a b : string) :
  (a ++ b)%string = ""%string -> a = ""%string /\ b = ""%string.
Proof. destruct a; simpl; intro H; [split; [reflexivity|exact H]|discriminate]. Qed.

Lemma nullable_Match (r : regex) : nullable r = true <-> Match r "".
Proof.
  split.
  - induction r as [ | | p | r1 IH1 r2 IH2 | r1 IH1 r2 IH2 | r IH ];
      simpl; intro H; try discriminate.
    + constructor.
    + apply andb_true_iff in H as [H1 H2].
      exact (MCat r1 r2 "" "" (IH1 H1) (IH2 H2)).
    + apply orb_true_iff in H as [H|H];
        [apply MAltL, IH1, H | apply MAltR, IH2, H].
    + constructor.
  - intro H. remember ""%string as s eqn:Hs.
    induction H as [ | p c Hp | r1 r2 s1 s2 H1 IH1 H2 IH2 | r1 r2 s H IH
                   | r1 r2 s H IH | r | r s1 s2 H1 IH1 H2 IH2 ];
      simpl; try reflexivity; try discriminate.
    + apply string_app_empty in Hs as [-> ->].
      rewrite IH1, IH2; reflexivity.
    + rewrite IH; [reflexivity|exact Hs].
    + rewrite IH; [apply orb_true_r|exact Hs].
Qed.

(** A non-empty string of a starred language starts with a non-empty
    string of the language. *)
Lemma Match_star_cons (r : regex) (c : ascii) (s : string) :
  Match (Star r) (String c s) ->
  exists s1 s2, s = (s1 ++ s2)%string
                /\ Match r (String c s1) /\ Match (Star r) s2.
Proof.
  intro H. remember (Star r) as r' eqn:Hr. remember (String c s) as t eqn:Ht.
  revert c s Ht.
  induction H as [ | p c' Hp | r1 r2 s1 s2 H1 IH1 H2 IH2 | r1 r2 s' H IH
                 | r1 r2 s' H IH | r0 | r0 s1 s2 H1 IH1 H2 IH2 ];
    intros c s Ht; try discriminate.
  inversion Hr; subst r0.
  destruct s1 as [|c1 s1].
  - simpl in Ht. exact (IH2 eq_refl c s Ht).
  - simpl in Ht. inversion Ht; subst.
    exists s1, s2. repeat split; assumption.
Qed.

Lemma Match_void_inv (s : string) : ~ Match Void s.
Proof. intro H. inversion H. Qed.

Lemma Match_eps_inv (s : string) : Match Eps s -> s = ""%string.
Proof. intro H. inversion H. reflexivity. Qed.

Lemma Match_class_inv (p : ascii -> bool) (s : string) :
  Match (Class p) s -> exists c, s = String c "" /\ p c = true.
Proof. intro H. inversion H; subst. eexists. split; [reflexivity|assumption]. Qed.

Lemma Match_cat_inv (r1 r2 : regex) (s : string) :
  Match (Cat r1 r2) s ->
  exists s1 s2, s = (s1 ++ s2)%string /\ Match r1 s1 /\ Match r2 s2.
Proof. intro H. inversion H; subst. eexists; eexists. repeat split; eassumption. Qed.

Lemma Match_alt_inv (r1 r2 : regex) (s : string) :
  Match (Alt r1 r2) s -> Match r1 s \/ Match r2 s.
Proof. intro H. inversion H; subst; [left|right]; assumption. Qed.

Lemma derive_Match (r : regex) :
  forall c s, Match (derive c r) s <-> Match r (String c s).
Proof.
  induction r as [ | | p | r1 IH1 r2 IH2 | r1 IH1 r2 IH2 | r IH ];
    intros c s; simpl.
  - split; intro H; exfalso; exact (Match_void_inv _ H).
  - split; intro H; [exfalso; exact (Match_void_inv _ H)|].
    apply Match_eps_inv in H. discriminate.
  - destruct (p c) eqn:Hp; split; intro H.
    + apply Match_eps_inv in H. subst. constructor. exact Hp.
    + apply Match_class_inv in H as (c' & Heq & _). inversion Heq. constructor.
    + exfalso; exact (Match_void_inv _ H).
    + apply Match_class_inv in H as (c' & Heq & Hp'). inversion Heq; subst.
      congruence.
  - assert (Hfwd : Match (Cat (derive c r1) r2) s -> Match (Cat r1 r2) (String c s)).
    { intro H. apply Match_cat_inv in H as (s1 & s2 & -> & Ha & Hb).
      apply IH1 in Ha. exact (MCat r1 r2 (String c s1) s2 Ha Hb). }
    assert (Hbwd : Match (Cat r1 r2) (String c s) ->
                   Match (Cat (derive c r1) r2) s
                   \/ (Match r1 "" /\ Match r2 (String c s))).
    { intro H. apply Match_cat_inv in H as (s1 & s2 & Heq & Ha & Hb).
      destruct s1 as [|c1 s1]; simpl in Heq.
      - right. subst s2. split; assumption.
      - inversion Heq; subst. left.
        apply MCat; [apply IH1; exact Ha|exact Hb]. }
    destruct (nullable r1) eqn:Hn.
    + split; intro H.
      * apply Match_alt_inv in H as [H|H]; [exact (Hfwd H)|].
        apply IH2 in H. apply nullable_Match in Hn.
        exact (MCat r1 r2 "" (String c s) Hn H).
      * destruct (Hbwd H) as [H'|[_ H']]; [apply MAltL; exact H'|].
        apply MAltR, IH2. exact H'.
    + split; intro H; [exact (Hfwd H)|].
      destruct (Hbwd H) as [H'|[Ha _]]; [exact H'|].
      apply nullable_Match in Ha. congruence.
  - split; intro H.
    + apply Match_alt_inv in H as [H|H];
        [apply MAltL, IH1|apply MAltR, IH2]; exact H.
    + apply Match_alt_inv in H as [H|H];
        [apply MAltL, IH1|apply MAltR, IH2]; exact H.
  - split; intro H.
    + apply Match_cat_inv in H as (s1 & s2 & -> & Ha & Hb).
      apply IH in Ha. exact (MStarApp r (String c s1) s2 Ha Hb).
    + apply Match_star_cons in H as (s1 & s2 & -> & Ha & Hb).
      apply MCat; [apply IH; exact Ha|exact Hb].
Qed.

(** The test computes membership in the language. *)
Lemma regex_test_Match (s : string) :
  forall r, regex_test r s = true <-> Match r s.
Proof.
  induction s as [|c s IH]; intro r; simpl.
  - apply nullable_Match.
  - rewrite IH. apply derive_Match.
Qed.

Lemma in_string_app (a b : string) (c : ascii) :
  In c (list_ascii_of_string (a ++ b)%string) ->
  In c (list_ascii_of_string a) \/ In c (list_ascii_of_string b).
Proof.
  induction a as [|x a IH]; simpl; [right; assumption|].
  intros [H|H]; [left; left; exact H|].
  destruct (IH H) as [H'|H']; [left; right; exact H'|right; exact H'].
Qed.

Lemma Match_chars (r : regex) (s : string) :
  Match r s ->
  forall c, In c (list_ascii_of_string s) -> may_occur r c = true.
Proof.
  induction 1 as [ | p x Hp | r1 r2 s1 s2 H1 IH1 H2 IH2 | r1 r2 s H IH
                 | r1 r2 s H IH | r | r s1 s2 H1 IH1 H2 IH2 ];
    intros c Hc; simpl in *.
  - contradiction.
  - destruct Hc as [<-|[]]. exact Hp.
  - apply orb_true_iff. apply in_string_app in Hc as [Hc|Hc];
      [left; exact (IH1 c Hc)|right; exact (IH2 c Hc)].
  - rewrite (IH c Hc). reflexivity.
  - rewrite (IH c Hc). apply orb_true_r.
  - contradiction.
  - apply in_string_app in Hc as [Hc|Hc]; [exact (IH1 c Hc)|exact (IH2 c Hc)].
Qed.

Lemma may_occur_cron (c : ascii) : may_occur cronRegex c = cron_char c.
Proof.
  destruct c as [[|] [|] [|] [|] [|] [|] [|] [|]]; vm_compute; reflexivity.
Qed.

(** X25.  Every expression that [validateCronExpression] accepts is
    made of digits, capital letters, the signs [,/-#*?] and spaces
    only: an expression with any other character, a small letter for
    instance, is rejected. *)
Theorem validateCronExpression_alphabet (cronExpression : string) :
  validateCronExpression cronExpression = true ->
  forall c, In c (list_ascii_of_string cronExpression) -> cron_char c = true.
Proof.
  unfold validateCronExpression.
  destruct (String.eqb_spec cronExpression "") as [->|_].
  - intros _ c [].
  - intros H c Hc. apply regex_test_Match in H.
    rewrite <- may_occur_cron. exact (Match_chars _ _ H c Hc).
Qed.

Lemma digits_star (s : string) : all_digits s = true -> Match (Star Digit) s.
Proof.
  induction s as [|c s IH]; simpl; intro H; [constructor|].
  apply andb_true_iff in H as [Hc Hs].
  exact (MStarApp Digit (String c "") s (MClass _ c Hc) (IH Hs)).
Qed.

Lemma digits_item (c : ascii) (s : string) :
  all_digits (String c s) = true -> Match cronItem (String c s).
Proof.
  simpl. intro H. apply andb_true_iff in H as [Hc Hs].
  assert (Hplus : Match (Plus Digit) (String c s))
    by exact (MCat Digit (Star Digit) (String c "") s (MClass _ c Hc) (digits_star s Hs)).
  assert (Hfield : Match cronField (String c s)).
  { unfold cronField. apply MAltR, MAltR, MAltL.
    rewrite <- (string_app_nil (String c s)).
    apply MCat; [exact Hplus|]. apply MAltR. constructor. }
  unfold cronItem. rewrite <- (string_app_nil (String c s)).
  apply MCat; [exact Hfield|]. apply MAltR. constructor.
Qed.

(** X26.  [validateCronExpression] accepts every string of five or
    more digits: the space between two fields is optional in the
    pattern, so a run of digits is read as that many fields. *)
Theorem validateCronExpression_accepts_digit_runs (cronExpression : string) :
  all_digits cronExpression = true ->
  5 <= String.length cronExpression ->
  validateCronExpression cronExpression = true.
Proof.
  intros Hd Hlen.
  destruct cronExpression as [|d1 [|d2 [|d3 [|d4 [|d5 rest]]]]];
    simpl in Hlen; try lia.
  unfold validateCronExpression. cbn [String.eqb].
  apply regex_test_Match.
  cbn [all_digits] in Hd.
  apply andb_true_iff in Hd as [H1 Hd]. apply andb_true_iff in Hd as [H2 Hd].
  apply andb_true_iff in Hd as [H3 Hd]. apply andb_true_iff in Hd as [H4 Hd].
  assert (Hone : forall d, is_digit d = true -> Match cronItem (String d "")).
  { intros d Hdig. apply digits_item. simpl. rewrite Hdig. reflexivity. }
  assert (Hrest : Match cronItem (String d5 rest)) by (apply digits_item; exact Hd).
  assert (Hend : Match (Cat (Opt cronItem) (Opt cronItem)) "").
  { exact (MCat _ _ "" "" (MAltR _ _ _ MEps) (MAltR _ _ _ MEps)). }
  pose proof (MCat _ _ _ _ (Hone d1 H1)
               (MCat _ _ _ _ (Hone d2 H2)
                  (MCat _ _ _ _ (Hone d3 H3)
                     (MCat _ _ _ _ (Hone d4 H4)
                        (MCat _ _ _ _ Hrest Hend))))) as Hall.
  cbn [append] in Hall. rewrite string_app_nil in Hall. exact Hall.
Qed.

(** Every five minutes. *)
Lemma validateCronExpression_alphabet_witness :
  validateCronExpression "*/5 * * * *" = true
  /\ forall c, In c (list_ascii_of_string "*/5 * * * *") -> cron_char c = true.
Proof.
  split; [reflexivity|].
  exact (validateCronExpression_alphabet "*/5 * * * *" eq_refl).
Defined.

Lemma validateCronExpression_accepts_digit_runs_witness :
  all_digits "12345" = true
  /\ 5 <= String.length "12345"
  /\ validateCronExpression "12345" = true.
Proof.
  split; [reflexivity|]. split; [exact (le_n 5)|].
  exact (validateCronExpression_accepts_digit_runs "12345" eq_refl (le_n 5)).
Defined.
